(** * Calculator: the expression buffer and the arithmetic pipeline of script.js

    A shallow embedding of the calculator's core: [tokenize], [toPostfix],
    [evalPostfix], [evaluateExpression], [toResultString], [normalizeInput]
    and [handleAction], together with the two module-level variables
    [expression] and [history].  DOM rendering ([updateDisplay],
    [renderHistory], [formatExpression]) only writes to the page and is left
    out: it never changes the two variables.

    JavaScript strings are lists of characters ([ascii]: everything the
    calculator reads or writes is ASCII), JavaScript numbers are IEEE 754
    binary64 values ([spec_float] at precision 53, exponent bound 1024),
    [undefined] is [None]. *)

From Stdlib Require Import List Ascii ZArith Lia Bool Arith Permutation.
From Stdlib Require Import Floats.SpecFloat.
Import ListNotations.

(** ** Strings *)

Definition str := list ascii.

(** String literals for [str]: ["ab"] is the list of the characters [a]
    and [b]. *)
Inductive str_lit := lit_nil | lit_cons (c : ascii) (s : str_lit).

Fixpoint str_parse (l : list Byte.byte) : str_lit :=
  match l with
  | [] => lit_nil
  | b :: t => lit_cons (ascii_of_byte b) (str_parse t)
  end.

Fixpoint str_print (l : str_lit) : list Byte.byte :=
  match l with
  | lit_nil => []
  | lit_cons c t => byte_of_ascii c :: str_print t
  end.

Declare Scope str_scope.
Delimit Scope str_scope with str.
#[warning="-via-type-mismatch"]
String Notation list str_parse str_print
  (via str_lit mapping [[nil] => lit_nil, [cons] => lit_cons]) : str_scope.
Open Scope str_scope.
Open Scope Z_scope.

Definition str_eqb (a b : str) : bool :=
  if list_eq_dec ascii_dec a b then true else false.

(** [/\d/] on one character. *)
Definition is_digit (c : ascii) : bool :=
  let n := N_of_ascii c in ((48 <=? n) && (n <=? 57))%N.

(** [const operators = new Set(['+', '-', '*', '/'])] *)
Definition operators : list ascii := ["+"; "-"; "*"; "/"]%char.

(** [operators.has] on one character. *)
Definition is_op_char (c : ascii) : bool := existsb (Ascii.eqb c) operators.

(** [/\d|\./] on one character. *)
Definition is_digit_or_dot (c : ascii) : bool :=
  is_digit c || Ascii.eqb c ".".

(** [s.at(-1)] *)
Definition at_last (s : str) : option ascii :=
  match rev s with
  | [] => None
  | c :: _ => Some c
  end.

(** [s.slice(0, -n)] for [n >= 0]; [-0] is [0], so [n = 0] gives the empty
    string. *)
Definition slice_off (s : str) (n : nat) : str :=
  match n with
  | O => []
  | _ => firstn (length s - n) s
  end.

(** [s.slice(1)] *)
Definition slice_1 (s : str) : str := skipn 1 s.

(** [s.startsWith('-')] *)
Definition startsWith_minus (s : str) : bool :=
  match s with
  | c :: _ => Ascii.eqb c "-"
  | [] => false
  end.

(** ** Numbers

    A JavaScript number is a binary64 float.  The arithmetic is the
    standard library's executable IEEE 754 specification. *)

Module Num.

Definition number := spec_float.

Definition prec : Z := 53.
Definition emax : Z := 1024.

Definition add : number -> number -> number := SFadd prec emax.
Definition sub : number -> number -> number := SFsub prec emax.
Definition mul : number -> number -> number := SFmul prec emax.
Definition div : number -> number -> number := SFdiv prec emax.

(** [===] on two numbers *)
Definition eqb : number -> number -> bool := SFeqb.

Definition NaN : number := S754_nan.

Definition of_Z (z : Z) : number := binary_normalize prec emax z 0 false.

(** [Number.isNaN] *)
Definition isNaN (x : number) : bool :=
  match x with
  | S754_nan => true
  | _ => false
  end.

(** [Number.isFinite] *)
Definition isFinite (x : number) : bool :=
  match x with
  | S754_zero _ | S754_finite _ _ _ => true
  | _ => false
  end.

(** [Number.isInteger] *)
Definition isInteger (x : number) : bool :=
  match x with
  | S754_zero _ => true
  | S754_finite _ m e =>
      (0 <=? e) || (Z.pos m mod 2 ^ (- e) =? 0)
  | _ => false
  end.

(** The sign bit; NaN has none. *)
Definition is_neg (x : number) : bool :=
  match x with
  | S754_zero s | S754_infinity s | S754_finite s _ _ => s
  | S754_nan => false
  end.

(** [Number.EPSILON], 2^-52 *)
Definition EPSILON : number := binary_normalize prec emax 1 (-52) false.

(** [Math.round]: the nearest integer, ties towards +infinity; a result
    of zero keeps the sign of the argument. *)
Definition round (x : number) : number :=
  match x with
  | S754_finite s m e =>
      if 0 <=? e then x
      else
        let v := if s then Z.neg m else Z.pos m in
        let d := 2 ^ (- e) in
        let r := (2 * v + d) / (2 * d) in
        if r =? 0 then S754_zero s else of_Z r
  | _ => x
  end.

(** The double nearest to [M * 10^E] (ties to even), for [M >= 0]. *)
Definition of_decimal (neg : bool) (M E : Z) : number :=
  match M with
  | Z.pos m =>
      if 0 <=? E then
        binary_round prec emax neg (m * Z.to_pos (10 ^ E)) 0
      else
        SFdiv prec emax (S754_finite neg m 0)
                        (S754_finite false (Z.to_pos (10 ^ (- E))) 0)
  | _ => S754_zero neg
  end.

Definition digit_val (c : ascii) : Z := Z.of_N (N_of_ascii c) - 48.

Definition digit_char (d : Z) : ascii := ascii_of_N (Z.to_N (48 + d)).

Definition Z_of_digits (ds : str) : Z :=
  fold_left (fun acc c => 10 * acc + digit_val c) ds 0.

Fixpoint digits_aux (fuel : nat) (n : Z) (acc : str) : str :=
  match fuel with
  | O => acc
  | S f =>
      let acc' := digit_char (n mod 10) :: acc in
      if n <? 10 then acc' else digits_aux f (n / 10) acc'
  end.

(** The decimal digits of [n >= 0], most significant first. *)
Definition digits_of (n : Z) : str :=
  digits_aux (S (Z.to_nat (Z.log2 n))) n [].

(** *** [parseFloat]

    The longest prefix of the trimmed string that is a decimal literal:
    an optional sign, then [Infinity], or digits with an optional
    fraction and an optional exponent.  NaN when there is none. *)

Fixpoint span_digits (s : str) : str * str :=
  match s with
  | c :: t =>
      if is_digit c then let '(d, r) := span_digits t in (c :: d, r)
      else ([], s)
  | [] => ([], [])
  end.

Definition is_space (c : ascii) : bool :=
  let n := N_of_ascii c in ((n =? 32) || ((9 <=? n) && (n <=? 13)))%N.

Fixpoint trim_start (s : str) : str :=
  match s with
  | c :: t => if is_space c then trim_start t else s
  | [] => []
  end.

Fixpoint starts_with (p s : str) : bool :=
  match p, s with
  | [], _ => true
  | a :: p', b :: s' => Ascii.eqb a b && starts_with p' s'
  | _ :: _, [] => false
  end.

Definition parse_sign (s : str) : bool * str :=
  match s with
  | c :: t =>
      if Ascii.eqb c "-" then (true, t)
      else if Ascii.eqb c "+" then (false, t)
      else (false, s)
  | [] => (false, s)
  end.

(** The value of an exponent part [e[+-]digits] at the head of [s], or 0. *)
Definition parse_exponent (s : str) : Z :=
  match s with
  | c :: t =>
      if Ascii.eqb c "e" || Ascii.eqb c "E" then
        let '(neg, t') := parse_sign t in
        let '(ds, _) := span_digits t' in
        match ds with
        | [] => 0
        | _ => if neg then - Z_of_digits ds else Z_of_digits ds
        end
      else 0
  | [] => 0
  end.

Definition parseFloat (s : str) : number :=
  let '(neg, s1) := parse_sign (trim_start s) in
  if starts_with "Infinity" s1 then S754_infinity neg
  else
    let '(ip, r1) := span_digits s1 in
    let '(fp, r2) :=
      match r1 with
      | c :: t => if Ascii.eqb c "." then span_digits t else ([], r1)
      | [] => ([], r1)
      end in
    match ip ++ fp with
    | [] => NaN
    | ds => of_decimal neg (Z_of_digits ds)
              (parse_exponent r2 - Z.of_nat (length fp))
    end.

(** *** [String(number)]

    Number::toString in radix 10: the shortest digit string [s] (with
    [k] digits) and the exponent [n] such that [s * 10^(n-k)] reads back
    as the same double, the closest to the double when there is a
    choice; then the positional or exponential layout. *)

(** [num / den < 10^n] *)
Definition lt_pow10 (num den n : Z) : bool :=
  if 0 <=? n then num <? den * 10 ^ n else num * 10 ^ (- n) <? den.

(** The least [n >= start] with [num / den < 10^n]. *)
Fixpoint decimal_exponent (fuel : nat) (num den start : Z) : Z :=
  match fuel with
  | O => start
  | S f =>
      if lt_pow10 num den start then start
      else decimal_exponent f num den (start + 1)
  end.

(** The [k]-digit candidate for [x = num / den], when one reads back as
    [x]. *)
Definition candidate (x : number) (num den n0 k : Z) : option (Z * Z) :=
  let p := n0 - k in
  let '(N', D') :=
    if 0 <=? p then (num, den * 10 ^ p) else (num * 10 ^ (- p), den) in
  let lo := N' / D' in
  let r := N' mod D' in
  let hi := lo + 1 in
  let up := if hi =? 10 ^ k then (10 ^ (k - 1), n0 + 1) else (hi, n0) in
  if r =? 0 then Some (lo, n0)
  else
    match eqb (of_decimal false lo p) x, eqb (of_decimal false hi p) x with
    | true, true =>
        if 2 * r <? D' then Some (lo, n0)
        else if D' <? 2 * r then Some up
        else if Z.even lo then Some (lo, n0) else Some up
    | true, false => Some (lo, n0)
    | false, true => Some up
    | false, false => None
    end.

Fixpoint shortest_aux (fuel : nat) (x : number) (num den n0 k : Z) : Z * Z :=
  match fuel with
  | O => (num * 10 ^ (k - n0) / den, n0)
  | S f =>
      match candidate x num den n0 k with
      | Some r => r
      | None => shortest_aux f x num den n0 (k + 1)
      end
  end.

(** The digits [s] and the exponent [n] of the positive double
    [m * 2^e]. *)
Definition shortest_decimal (m : positive) (e : Z) : Z * Z :=
  let '(num, den) :=
    if 0 <=? e then (Z.pos m * 2 ^ e, 1) else (Z.pos m, 2 ^ (- e)) in
  let b := Z.log2 (Z.pos m) + e in
  let n0 := decimal_exponent 4 num den (b * 30103 / 100000 - 1) in
  shortest_aux 17 (S754_finite false m e) num den n0 1.

Definition zeros (n : Z) : str := repeat "0"%char (Z.to_nat n).

Definition format_decimal (sn : Z * Z) : str :=
  let '(s, n) := sn in
  let ds := digits_of s in
  let k := Z.of_nat (length ds) in
  if (k <=? n) && (n <=? 21) then ds ++ zeros (n - k)
  else if (0 <? n) && (n <=? 21) then
    firstn (Z.to_nat n) ds ++ "." ++ skipn (Z.to_nat n) ds
  else if (-6 <? n) && (n <=? 0) then "0." ++ zeros (- n) ++ ds
  else
    let e := n - 1 in
    let sg := if e <? 0 then "-" else "+" in
    if k =? 1 then ds ++ "e" ++ sg ++ digits_of (Z.abs e)
    else firstn 1 ds ++ "." ++ skipn 1 ds ++ "e" ++ sg ++ digits_of (Z.abs e).

Definition toString (x : number) : str :=
  match x with
  | S754_nan => "NaN"
  | S754_zero _ => "0"
  | S754_infinity s => (if s then "-" else []) ++ "Infinity"
  | S754_finite s m e =>
      (if s then "-" else []) ++ format_decimal (shortest_decimal m e)
  end.

End Num.

(** ** The calculator *)

Import Num.

(** [operators.has(token)] on a string: a member is one operator character. *)
Definition is_operator (t : str) : bool :=
  match t with
  | [c] => is_op_char c
  | _ => false
  end.

(** [operators.has(x)] where [x] is a character or [undefined]. *)
Definition has_op (x : option ascii) : bool :=
  match x with
  | Some c => is_op_char c
  | None => false
  end.

(** [/\d|\./.test(x)] where [x] is a character or [undefined]. *)
Definition test_digit_or_dot (x : option ascii) : bool :=
  match x with
  | Some c => is_digit_or_dot c
  | None => false
  end.

Definition nonempty {A : Type} (l : list A) : bool :=
  match l with
  | [] => false
  | _ :: _ => true
  end.

(** *** tokenize *)

(** [raw[i - 1]], which is [undefined] at [i = 0]. *)
Definition char_before (raw : str) (i : nat) : option ascii :=
  match i with
  | O => None
  | S j => nth_error raw j
  end.

(** The [unaryMinus] flag of the loop body at index [i]. *)
Definition unaryMinus (raw : str) (i : nat) (char : ascii) : bool :=
  Ascii.eqb char "-"
  && (Nat.eqb i 0 || has_op (char_before raw i))
  && test_digit_or_dot (nth_error raw (S i)).

(** [if (numberBuffer) { tokens.push(numberBuffer) }] *)
Definition flush (tokens : list str) (numberBuffer : str) : list str :=
  if nonempty numberBuffer then tokens ++ [numberBuffer] else tokens.

(** One turn of the [for] loop, on the pair [(tokens, numberBuffer)]. *)
Definition tokenize_step (raw : str) (st : list str * str) (i : nat)
  : list str * str :=
  let '(tokens, numberBuffer) := st in
  match nth_error raw i with
  | None => st
  | Some char =>
      if is_digit_or_dot char || unaryMinus raw i char then
        (tokens, numberBuffer ++ [char])
      else if is_op_char char then
        (flush tokens numberBuffer ++ [[char]], [])
      else st
  end.

Definition tokenize_loop (raw : str) : list str * str :=
  fold_left (tokenize_step raw) (seq 0 (length raw)) ([], []).

Definition tokenize (raw : str) : list str :=
  let '(tokens, numberBuffer) := tokenize_loop raw in
  flush tokens numberBuffer.

(** *** toPostfix

    [output] is in array order; [stack] has its top (the end of the
    JavaScript array) at the head. *)

Definition precedence (t : str) : option nat :=
  if str_eqb t "+" then Some 1%nat
  else if str_eqb t "-" then Some 1%nat
  else if str_eqb t "*" then Some 2%nat
  else if str_eqb t "/" then Some 2%nat
  else None.

(** [x >= y] on table entries; a comparison with [undefined] is false. *)
Definition js_ge (x y : option nat) : bool :=
  match x, y with
  | Some a, Some b => (b <=? a)%nat
  | _, _ => false
  end.

(** The inner [while] loop. *)
Fixpoint pop_while (token : str) (stack output : list str)
  : list str * list str :=
  match stack with
  | top :: rest =>
      if js_ge (precedence top) (precedence token)
      then pop_while token rest (output ++ [top])
      else (output, stack)
  | [] => (output, [])
  end.

Definition toPostfix_step (st : list str * list str) (token : str)
  : list str * list str :=
  let '(output, stack) := st in
  if negb (is_operator token) then (output ++ [token], stack)
  else
    let '(output', stack') := pop_while token stack output in
    (output', token :: stack').

Definition toPostfix (tokens : list str) : list str :=
  let '(output, stack) := fold_left toPostfix_step tokens ([], []) in
  output ++ stack.

(** *** evalPostfix

    The value stack has its top at the head; [stack.pop()] on an empty
    array is [undefined]. *)

Definition pop (stack : list number) : option number * list number :=
  match stack with
  | x :: rest => (Some x, rest)
  | [] => (None, [])
  end.

(** A binary arithmetic operator; [undefined] converts to NaN. *)
Definition arith (f : number -> number -> number) (a b : option number)
  : number :=
  match a, b with
  | Some x, Some y => f x y
  | _, _ => NaN
  end.

(** [Number.isNaN(v)]; false on [undefined]. *)
Definition opt_isNaN (v : option number) : bool :=
  match v with
  | Some x => isNaN x
  | None => false
  end.

(** [b === 0] *)
Definition is_zero (b : option number) : bool :=
  match b with
  | Some y => Num.eqb y (of_Z 0)
  | None => false
  end.

Definition evalPostfix_step (stack : list number) (token : str)
  : list number :=
  if negb (is_operator token) then parseFloat token :: stack
  else
    let '(b, stack1) := pop stack in
    let '(a, stack2) := pop stack1 in
    if opt_isNaN a || opt_isNaN b then NaN :: stack2
    else if str_eqb token "+" then arith add a b :: stack2
    else if str_eqb token "-" then arith sub a b :: stack2
    else if str_eqb token "*" then arith mul a b :: stack2
    else if str_eqb token "/" then
      (if is_zero b then NaN else arith div a b) :: stack2
    else NaN :: stack2.

(** [stack[0]]: the bottom of the stack. *)
Definition bottom (stack : list number) : option number :=
  match rev stack with
  | x :: _ => Some x
  | [] => None
  end.

Definition evalPostfix (postfix : list str) : option number :=
  bottom (fold_left evalPostfix_step postfix []).

Definition evaluateExpression (raw : str) : option number :=
  let tokens := tokenize raw in
  if Nat.eqb (length tokens) 0 then Some (of_Z 0)
  else evalPostfix (toPostfix tokens).

(** *** toResultString *)

Definition toResultString (value : option number) : str :=
  match value with
  | None => "Error"
  | Some v =>
      if negb (isFinite v) then "Error"
      else
        let rounded :=
          div (round (mul (add v EPSILON) (of_Z 1000000000000)))
              (of_Z 1000000000000) in
        if isInteger rounded then toString rounded else toString rounded
  end.

(** *** normalizeInput *)

(** [s.split(/[+\-*/]/)] *)
Fixpoint split_ops (s : str) : list str :=
  match s with
  | [] => [[]]
  | c :: t =>
      if is_op_char c then [] :: split_ops t
      else
        match split_ops t with
        | seg :: segs => (c :: seg) :: segs
        | [] => [[c]]
        end
  end.

Definition normalizeInput (newChar : str) (expression : str) : str :=
  if existsb is_digit newChar then expression ++ newChar
  else if str_eqb newChar "." then
    let segments := split_ops expression in
    let current := last segments [] in
    if negb (existsb (Ascii.eqb ".") current)
    then expression ++ (if nonempty current then "." else "0.")
    else expression
  else if is_operator newChar then
    if negb (nonempty expression) then
      (if str_eqb newChar "-" then "-" else expression)
    else if has_op (at_last expression) then slice_off expression 1 ++ newChar
    else expression ++ newChar
  else expression.

(** *** handleAction *)

(** Does the whole of [s] match [-?\d*\.?\d+]? *)
Definition matches_num (s : str) : bool :=
  let r := if startsWith_minus s then slice_1 s else s in
  let '(d1, r1) := span_digits r in
  match r1 with
  | [] => nonempty d1
  | c :: t =>
      if Ascii.eqb c "." then
        let '(d2, r2) := span_digits t in
        nonempty d2 && negb (nonempty r2)
      else false
  end.

(** [s.match(/-?\d*\.?\d+$/)]: the leftmost suffix of [s] that matches,
    [null] when there is none. *)
Fixpoint match_trailing (s : str) : option str :=
  if matches_num s then Some s
  else
    match s with
    | [] => None
    | _ :: t => match_trailing t
    end.

Inductive action := Clear | Delete | Percent | Sign | Equals | Other.

Record entry := { e_expression : str; e_result : str; e_id : str }.

(** The two module-level variables. *)
Record state := { expression : str; history : list entry }.

Definition set_expression (st : state) (e : str) : state :=
  {| expression := e; history := history st |}.

Definition ends_in_operator (e : str) : bool := has_op (at_last e).

(** [handleAction(action)]; [uuid] is what [crypto.randomUUID()] returns
    if it is called. *)
Definition handleAction (uuid : str) (a : action) (st : state) : state :=
  let e := expression st in
  match a with
  | Clear => set_expression st []
  | Delete => set_expression st (slice_off e 1)
  | Percent =>
      if negb (nonempty e) || ends_in_operator e then st
      else
        match match_trailing e with
        | None => st
        | Some current =>
            let percentValue := toString (div (parseFloat current) (of_Z 100)) in
            set_expression st (slice_off e (length current) ++ percentValue)
        end
  | Sign =>
      match match_trailing e with
      | None =>
          set_expression st (if startsWith_minus e then slice_1 e else "-" ++ e)
      | Some current =>
          let toggled :=
            if startsWith_minus current then slice_1 current
            else "-" ++ current in
          set_expression st (slice_off e (length current) ++ toggled)
      end
  | Equals =>
      if negb (nonempty e) || ends_in_operator e then st
      else
        let result := evaluateExpression e in
        let answer := toResultString result in
        if negb (str_eqb answer "Error") then
          {| expression := answer;
             history :=
               firstn 20 ({| e_expression := e; e_result := answer;
                             e_id := uuid |} :: history st) |}
        else set_expression st []
  | Other => st
  end.

(** What the page can do to the two variables: a key or keypad value
    ([normalizeInput]), a command ([handleAction]), the clear-history
    button, and a click on the [i]-th history item. *)
Inductive event :=
| Input (newChar : str)
| Command (a : action) (uuid : str)
| ClearHistory
| HistoryClick (i : nat).

Definition step (st : state) (ev : event) : state :=
  match ev with
  | Input newChar => set_expression st (normalizeInput newChar (expression st))
  | Command a uuid => handleAction uuid a st
  | ClearHistory => {| expression := expression st; history := [] |}
  | HistoryClick i =>
      match nth_error (history st) i with
      | Some en => set_expression st (e_result en)
      | None => st
      end
  end.

Definition run (st : state) (evs : list event) : state :=
  fold_left step evs st.

Definition initial : state := {| expression := []; history := [] |}.

(** ** Definitions used to state the properties *)

(** The run of operators at the top of [stack] whose precedence is greater
    than or equal to that of [token], and what is left below it. *)
Fixpoint spec_popped (token : str) (stack : list str) : list str :=
  match stack with
  | top :: rest =>
      if js_ge (precedence top) (precedence token)
      then top :: spec_popped token rest else []
  | [] => []
  end.

Fixpoint spec_kept (token : str) (stack : list str) : list str :=
  match stack with
  | top :: rest =>
      if js_ge (precedence top) (precedence token)
      then spec_kept token rest else stack
  | [] => []
  end.


(** [equals] reaches the evaluation and the answer is not the sentinel. *)
Definition answer_of (e : str) : str := toResultString (evaluateExpression e).

Definition equals_ok (st : state) : bool :=
  nonempty (expression st)
  && negb (ends_in_operator (expression st))
  && negb (str_eqb (answer_of (expression st)) "Error").

(** The entry a successful [equals] makes from the state before it. *)
Definition entry_of (uuid : str) (st : state) : entry :=
  {| e_expression := expression st;
     e_result := answer_of (expression st);
     e_id := uuid |}.

Definition is_successful_equals (st : state) (ev : event) : bool :=
  match ev with
  | Command Equals _ => equals_ok st
  | _ => false
  end.

Definition is_clear_history (ev : event) : bool :=
  match ev with
  | ClearHistory => true
  | _ => false
  end.

(** The number of successful [equals] commands of a run since the history
    was last cleared, counting on from [n]. *)
Fixpoint successes (st : state) (evs : list event) (n : nat) : nat :=
  match evs with
  | [] => n
  | ev :: rest =>
      successes (step st ev) rest
        (if is_clear_history ev then O
         else if is_successful_equals st ev then S n else n)
  end.

(** The entry of the most recent successful [equals] of a run since the
    history was last cleared; [acc] when there is none. *)
Fixpoint latest (st : state) (evs : list event) (acc : option entry)
  : option entry :=
  match evs with
  | [] => acc
  | ev :: rest =>
      latest (step st ev) rest
        match ev with
        | Command Equals uuid =>
            if equals_ok st then Some (entry_of uuid st) else acc
        | ClearHistory => None
        | _ => acc
        end
  end.

(** Typing the characters of [s] one by one. *)
Definition keys (s : str) : list event := map (fun c => Input [c]) s.

(** Is the first character of [s] an operator? *)
Definition head_op (s : str) : bool :=
  match s with
  | c :: _ => is_op_char c
  | [] => false
  end.

(** Does [s] contain two adjacent operator characters? *)
Fixpoint adjacent_ops (s : str) : bool :=
  match s with
  | c :: t => (is_op_char c && head_op t) || adjacent_ops t
  | [] => false
  end.

(** [s] contains no operator character. *)
Definition ops_free (s : str) : bool :=
  forallb (fun c => negb (is_op_char c)) s.

(** A number token: an optional leading minus, then one or more
    characters that are digits or decimal points. *)
Definition is_number_token (t : str) : bool :=
  let d := if startsWith_minus t then slice_1 t else t in
  nonempty d && forallb is_digit_or_dot d.

Definition token_ok (t : str) : bool := is_operator t || is_number_token t.

(** No two neighbours in [tokens] are both non-operators. *)
Fixpoint no_adjacent_numbers (tokens : list str) : bool :=
  match tokens with
  | a :: rest =>
      (is_operator a
       || match rest with
          | b :: _ => is_operator b
          | [] => true
          end)
      && no_adjacent_numbers rest
  | [] => true
  end.

(** The position [i] of [raw] is where a minus is a sign: it is the first
    character or follows an operator character, and the next character is a
    digit or a decimal point. *)
Definition unary_position (raw : str) (i : nat) : bool :=
  (Nat.eqb i 0 || has_op (char_before raw i))
  && test_digit_or_dot (nth_error raw (S i)).

Definition minus_at (raw : str) (i : nat) : bool :=
  match nth_error raw i with
  | Some c => Ascii.eqb c "-"
  | None => false
  end.

Definition unary_minus_at (raw : str) (i : nat) : bool :=
  minus_at raw i && unary_position raw i.

Definition binary_minus_at (raw : str) (i : nat) : bool :=
  minus_at raw i && negb (unary_position raw i).

Definition count_if {A : Type} (p : A -> bool) (l : list A) : nat :=
  length (filter p l).

(** The operator token [-]. *)
Definition is_minus_token (t : str) : bool := str_eqb t "-".

(** A token that starts with a minus sign and goes on: a negative number. *)
Definition is_negative_token (t : str) : bool :=
  startsWith_minus t && negb (str_eqb t "-").

(** What holds of the number buffer before the turn at index [i]: it is
    empty, or a number token, or a lone sign about to get its digits. *)
Definition buffer_ok (raw : str) (i : nat) (numberBuffer : str) : Prop :=
  numberBuffer = []
  \/ is_number_token numberBuffer = true
  \/ (numberBuffer = "-" /\ test_digit_or_dot (nth_error raw i) = true).

(** Where a sign could start, the buffer is empty or digits follow. *)
Definition fresh_after_op (raw : str) (i : nat) (numberBuffer : str) : Prop :=
  (Nat.eqb i 0 || has_op (char_before raw i)) = true ->
  numberBuffer = [] \/ test_digit_or_dot (nth_error raw i) = true.

(** The invariant of the [for] loop of [tokenize], before the turn at
    index [i]. *)
Record tokenizer_inv (raw : str) (i : nat) (st : list str * str) : Prop := {
  inv_tokens : forallb token_ok (fst st) = true;
  inv_adjacent : no_adjacent_numbers (fst st) = true;
  inv_last : is_operator (last (fst st) "+") = true;
  inv_buffer : buffer_ok raw i (snd st);
  inv_fresh : fresh_after_op raw i (snd st);
  inv_binary :
    count_if is_minus_token (fst st)
    = count_if (binary_minus_at raw) (seq 0 i);
  inv_unary :
    (count_if is_negative_token (fst st)
     + (if startsWith_minus (snd st) then 1 else 0))%nat
    = count_if (unary_minus_at raw) (seq 0 i)
}.

(** The events that leave out the [sign] command: one typed character,
    the commands [clear], [delete], [percent] and [equals], the
    clear-history button and a click on a history item. *)
Definition is_unsigned_event (ev : event) : bool :=
  match ev with
  | Input [_] => true
  | Input _ => false
  | Command Sign _ => false
  | Command _ _ => true
  | ClearHistory => true
  | HistoryClick _ => true
  end.

(** Neither the buffer nor a recorded result has two adjacent operator
    characters. *)
Definition buffer_inv (st : state) : Prop :=
  adjacent_ops (expression st) = false
  /\ Forall (fun en => adjacent_ops (e_result en) = false) (history st).

(** ** Definitions for the pipeline on well-formed expressions *)

(** The condition [i === 0 || operators.has(prev)] read on [prev] alone:
    [prev] is [undefined] only at the first index. *)
Definition first_or_after_op (prev : option ascii) : bool :=
  match prev with
  | None => true
  | Some p => is_op_char p
  end.

(** One turn of the loop of [tokenize], given the character before, the
    character and the character after. *)
Definition scan_step (prev : option ascii) (char : ascii)
  (next : option ascii) (st : list str * str) : list str * str :=
  let '(tokens, numberBuffer) := st in
  if is_digit_or_dot char
     || (Ascii.eqb char "-" && first_or_after_op prev
         && test_digit_or_dot next)
  then (tokens, numberBuffer ++ [char])
  else if is_op_char char then (flush tokens numberBuffer ++ [[char]], [])
  else st.

(** The loop of [tokenize] as one pass over the characters. *)
Fixpoint scan (prev : option ascii) (rest : str) (st : list str * str)
  : list str * str :=
  match rest with
  | [] => st
  | c :: t => scan (Some c) t (scan_step prev c (hd_error t) st)
  end.

(** An expression written out: a first operand, then operators each
    followed by an operand. *)
Definition unparse (n0 : str) (rest : list (ascii * str)) : str :=
  n0 ++ flat_map (fun p => fst p :: snd p) rest.

Definition tokens_of (n0 : str) (rest : list (ascii * str)) : list str :=
  n0 :: flat_map (fun p => [[fst p]; snd p]) rest.

(** Operands are number tokens, operators are operator characters. *)
Definition well_formed (n0 : str) (rest : list (ascii * str)) : bool :=
  is_number_token n0
  && forallb (fun p => is_op_char (fst p) && is_number_token (snd p)) rest.

(** What an operator does to two numbers, as in the [switch] of
    [evalPostfix]: not-a-number is passed on, and so is a division by
    zero. *)
Definition apply_op (o : ascii) (a b : number) : number :=
  if isNaN a || isNaN b then NaN
  else if Ascii.eqb o "+" then add a b
  else if Ascii.eqb o "-" then sub a b
  else if Ascii.eqb o "*" then mul a b
  else if Ascii.eqb o "/" then
    (if Num.eqb b (of_Z 0) then NaN else div a b)
  else NaN.

Definition is_multiplicative (o : ascii) : bool :=
  Ascii.eqb o "*" || Ascii.eqb o "/".

Definition is_additive (o : ascii) : bool :=
  Ascii.eqb o "+" || Ascii.eqb o "-".

(** The value of the additive part read so far, if any, combined with the
    current term. *)
Definition close_term (pending : option (number * ascii)) (term : number)
  : number :=
  match pending with
  | None => term
  | Some (s, o) => apply_op o s term
  end.

(** The usual reading of an expression without parentheses: [*] and [/]
    bind tighter than [+] and [-], and operators of the same level are
    applied from left to right.  [term] is the product being built,
    [pending] the sum before it with its operator. *)
Fixpoint eval_ref (pending : option (number * ascii)) (term : number)
  (rest : list (ascii * number)) : number :=
  match rest with
  | [] => close_term pending term
  | (o, n) :: rest' =>
      if is_multiplicative o then eval_ref pending (apply_op o term n) rest'
      else eval_ref (Some (close_term pending term, o)) n rest'
  end.

Definition operand_values (rest : list (ascii * str))
  : list (ascii * number) :=
  map (fun p => (fst p, parseFloat (snd p))) rest.

(** The value stack and the operator stack that go with a state of
    [eval_ref], while [toPostfix] and [evalPostfix] work through the same
    expression. *)
Inductive stacks_match
  : list number -> list str -> option (number * ascii) -> number -> Prop :=
| match_start term : stacks_match [term] [] None term
| match_add a s term :
    is_additive a = true ->
    stacks_match [term; s] [[a]] (Some (s, a)) term
| match_mul m t n :
    is_multiplicative m = true ->
    stacks_match [n; t] [[m]] None (apply_op m t n)
| match_mul_add m a t n s :
    is_multiplicative m = true ->
    is_additive a = true ->
    stacks_match [n; t; s] [[m]; [a]] (Some (s, a)) (apply_op m t n).

(** ** Definitions for the buffer commands *)

(** The operator stack of [toPostfix] is empty, or holds one operator, or
    holds a multiplicative operator on top of an additive one. *)
Definition stack_shape (stack : list str) : Prop :=
  stack = []
  \/ (exists o, stack = [o] /\ is_operator o = true)
  \/ (exists m a, stack = [m; a]
                  /\ precedence m = Some 2%nat /\ precedence a = Some 1%nat).

(** The last character of [e] is a digit. *)
Definition ends_in_digit (e : str) : bool :=
  match at_last e with
  | Some d => is_digit d
  | None => false
  end.

(** [pre] is empty or ends in [+], [*] or [/]. *)
Definition after_blocker (pre : str) : bool :=
  match at_last pre with
  | None => true
  | Some o => is_op_char o && negb (Ascii.eqb o "-")
  end.

(** Reading [e] from the left: has the segment reached so far got a
    decimal point?  [seen] is the answer before [e]. *)
Definition dot_seen (seen : bool) (e : str) : bool :=
  fold_left (fun s c => if is_op_char c then false
                        else if Ascii.eqb c "." then true else s) e seen.

(** No segment of [e] has two decimal points, the first segment counting
    one more when [seen]. *)
Fixpoint dots_ok_from (seen : bool) (e : str) : bool :=
  match e with
  | [] => true
  | c :: t =>
      if is_op_char c then dots_ok_from false t
      else if Ascii.eqb c "." then negb seen && dots_ok_from true t
      else dots_ok_from seen t
  end.

(** Typing one character, [clear] and [delete]. *)
Definition is_typing_event (ev : event) : bool :=
  match ev with
  | Input [_] => true
  | Command Clear _ => true
  | Command Delete _ => true
  | _ => false
  end.

(** ** The display

    What the page shows is text with characters outside ASCII (the
    operator glyphs and the ellipsis), so displayed strings are lists of
    UTF-16 code units. *)

Definition ustr := list N.

Definition text_of (s : str) : ustr := map N_of_ascii s.

(** [\s], which is also what [trim] strips: white space and line
    terminators. *)
Definition is_white (c : N) : bool :=
  ((9 <=? c) && (c <=? 13) || (c =? 32) || (c =? 160) || (c =? 5760)
   || (8192 <=? c) && (c <=? 8202) || (c =? 8232) || (c =? 8233)
   || (c =? 8239) || (c =? 8287) || (c =? 12288) || (c =? 65279))%N.

(** [s.replaceAll(pat, rep)] for a pattern of one character. *)
Definition replaceAll (pat : N) (rep : ustr) (s : ustr) : ustr :=
  flat_map (fun c => if N.eqb c pat then rep else [c]) s.

(** [s.replace(/\s+/g, ' ')]; [in_run] says that the character before was
    white space. *)
Fixpoint collapse_white (in_run : bool) (s : ustr) : ustr :=
  match s with
  | [] => []
  | c :: t =>
      if is_white c then
        (if in_run then collapse_white true t
         else 32%N :: collapse_white true t)
      else c :: collapse_white false t
  end.

Fixpoint trimStart (s : ustr) : ustr :=
  match s with
  | c :: t => if is_white c then trimStart t else s
  | [] => []
  end.

Fixpoint trimEnd (s : ustr) : ustr :=
  match s with
  | [] => []
  | c :: t =>
      match trimEnd t with
      | [] => if is_white c then [] else [c]
      | t' => c :: t'
      end
  end.

(** [s.trim()] *)
Definition trim (s : ustr) : ustr := trimEnd (trimStart s).

(** The glyphs: multiplication sign, division sign, minus sign. *)
Definition glyph_times : N := 215%N.
Definition glyph_divide : N := 247%N.
Definition glyph_minus : N := 8722%N.

Definition spaced (c : N) : ustr := [32%N; c; 32%N].

Definition formatExpression (value : ustr) : ustr :=
  trim
    (collapse_white false
       (replaceAll 43%N (spaced 43%N)
          (replaceAll 45%N (spaced glyph_minus)
             (replaceAll 47%N (spaced glyph_divide)
                (replaceAll 42%N (spaced glyph_times) value))))).

(** The two text nodes that [updateDisplay] writes. *)
Record display := { expressionText : ustr; resultText : ustr }.

(** The horizontal ellipsis. *)
Definition ellipsis : ustr := [8230%N].

(** [expression.at(-1) === '.'] *)
Definition ends_in_dot (e : str) : bool :=
  match at_last e with
  | Some c => Ascii.eqb c "."
  | None => false
  end.

(** [updateDisplay(preview)], as a function of the buffer. *)
Definition updateDisplay (preview : bool) (expression : str) : display :=
  let shown :=
    if nonempty expression then formatExpression (text_of expression)
    else text_of "0" in
  if negb (nonempty expression) then
    {| expressionText := shown; resultText := text_of "0" |}
  else if negb preview || has_op (at_last expression)
          || ends_in_dot expression then
    {| expressionText := shown; resultText := ellipsis |}
  else
    {| expressionText := shown;
       resultText := text_of (toResultString (evaluateExpression expression)) |}.

(** The variables together with what is on the page. *)
Record page := { vars : state; screen : display }.

(** New variables, then [updateDisplay(preview)]. *)
Definition refresh (preview : bool) (st : state) : page :=
  {| vars := st; screen := updateDisplay preview (expression st) |}.

(** [handleAction] with its calls of [updateDisplay]: a branch that
    returns early leaves the page as it is. *)
Definition handleAction_page (uuid : str) (a : action) (p : page) : page :=
  let st := vars p in
  let e := expression st in
  match a with
  | Clear => refresh false (set_expression st [])
  | Delete => refresh false (set_expression st (slice_off e 1))
  | Percent =>
      if negb (nonempty e) || ends_in_operator e then p
      else
        match match_trailing e with
        | None => p
        | Some current =>
            let percentValue := toString (div (parseFloat current) (of_Z 100)) in
            refresh true
              (set_expression st (slice_off e (length current) ++ percentValue))
        end
  | Sign =>
      match match_trailing e with
      | None =>
          refresh false
            (set_expression st (if startsWith_minus e then slice_1 e else "-" ++ e))
      | Some current =>
          let toggled :=
            if startsWith_minus current then slice_1 current
            else "-" ++ current in
          refresh true
            (set_expression st (slice_off e (length current) ++ toggled))
      end
  | Equals =>
      if negb (nonempty e) || ends_in_operator e then p
      else
        let result := evaluateExpression e in
        let answer := toResultString result in
        refresh false
          (if negb (str_eqb answer "Error") then
             {| expression := answer;
                history :=
                  firstn 20 ({| e_expression := e; e_result := answer;
                                e_id := uuid |} :: history st) |}
           else set_expression st [])
  | Other => p
  end.

(** The handlers of the page: a value goes through [normalizeInput] and
    [updateDisplay()]; the clear-history button leaves the two text nodes
    alone; a click on a history item copies its result into the buffer
    and calls [updateDisplay(false)]. *)
Definition page_step (p : page) (ev : event) : page :=
  match ev with
  | Input newChar =>
      refresh true
        (set_expression (vars p) (normalizeInput newChar (expression (vars p))))
  | Command a uuid => handleAction_page uuid a p
  | ClearHistory =>
      {| vars := {| expression := expression (vars p); history := [] |};
         screen := screen p |}
  | HistoryClick i =>
      match nth_error (history (vars p)) i with
      | Some en => refresh false (set_expression (vars p) (e_result en))
      | None => p
      end
  end.

Definition page_run (p : page) (evs : list event) : page :=
  fold_left page_step evs p.

(** The page once the script has run: [updateDisplay(false)] on the empty
    buffer. *)
Definition initial_page : page := refresh false initial.

(** ** Definitions to state what the display shows *)

Definition head_white (s : ustr) : bool :=
  match s with
  | c :: _ => is_white c
  | [] => false
  end.

(** Every white-space character of [s] is a space and is not followed by
    white space. *)
Fixpoint collapsed (s : ustr) : bool :=
  match s with
  | [] => true
  | c :: t =>
      (if is_white c then N.eqb c 32 && negb (head_white t) else true)
      && collapsed t
  end.

(** Every white-space character of [s] is a space with a character that is
    not white space right after it. *)
Fixpoint single_spaced (s : ustr) : bool :=
  match s with
  | [] => true
  | c :: t =>
      (if is_white c then
         N.eqb c 32
         && match t with
            | c' :: _ => negb (is_white c')
            | [] => false
            end
       else true)
      && single_spaced t
  end.

(** Back from a glyph to the operator character. *)
Definition unglyph (c : N) : N :=
  if N.eqb c glyph_times then 42%N
  else if N.eqb c glyph_divide then 47%N
  else if N.eqb c glyph_minus then 45%N
  else c.

(** Reading a displayed expression back: drop the spaces, undo the
    glyphs. *)
Definition unformat (s : ustr) : ustr :=
  map unglyph (filter (fun c => negb (is_white c)) s).

(** A character that is neither white space nor one of the glyphs. *)
Definition is_plain (c : N) : bool :=
  negb (is_white c) && negb (N.eqb c glyph_times)
  && negb (N.eqb c glyph_divide) && negb (N.eqb c glyph_minus).

(** What the expression line shows for the buffer [e]. *)
Definition expression_line (e : str) : ustr :=
  if nonempty e then formatExpression (text_of e) else text_of "0".

(** The result line goes with the buffer: ["0"] for the empty buffer, the
    ellipsis for a buffer that ends in an operator or a decimal point,
    and otherwise the ellipsis or the formatted value of the buffer. *)
Definition result_line_ok (e : str) (r : ustr) : Prop :=
  if negb (nonempty e) then r = text_of "0"
  else if has_op (at_last e) || ends_in_dot e then r = ellipsis
  else r = ellipsis \/ r = text_of (toResultString (evaluateExpression e)).

(** * Properties *)

Arguments is_digit : simpl never.
Arguments is_op_char : simpl never.
Arguments is_digit_or_dot : simpl never.
Arguments is_space : simpl never.
Arguments Ascii.eqb : simpl never.

(** ** Examples from the specification *)

Example evaluate_empty : evaluateExpression [] = Some (of_Z 0).
Proof. reflexivity. Qed.

Example operator_replaces_operator : normalizeInput "*" "5+" = "5*".
Proof. vm_compute. reflexivity. Qed.

Example decimal_point_on_empty_segment : normalizeInput "." "5+" = "5+0.".
Proof. vm_compute. reflexivity. Qed.

Example percent_of_50 :
  expression (handleAction "id" Percent {| expression := "50"; history := [] |})
  = "0.5".
Proof. vm_compute. reflexivity. Qed.

Example one_tenth_plus_two_tenths :
  toResultString (evaluateExpression "0.1+0.2") = "0.3".
Proof. vm_compute. reflexivity. Qed.

(** ** toPostfix *)

Lemma pop_while_spec token stack output :
  pop_while token stack output
  = (output ++ spec_popped token stack, spec_kept token stack).
Proof.
  revert output.
  induction stack as [|top rest IH]; intros output; simpl.
  - now rewrite app_nil_r.
  - destruct (js_ge (precedence top) (precedence token)).
    + rewrite IH, <- app_assoc. reflexivity.
    + now rewrite app_nil_r.
Qed.

Lemma spec_popped_kept token stack :
  spec_popped token stack ++ spec_kept token stack = stack.
Proof.
  induction stack as [|top rest IH]; simpl; [reflexivity|].
  destruct (js_ge (precedence top) (precedence token)); simpl; congruence.
Qed.

Lemma toPostfix_step_perm st token :
  Permutation (fst (toPostfix_step st token) ++ snd (toPostfix_step st token))
              (token :: fst st ++ snd st).
Proof.
  destruct st as [output stack]. unfold toPostfix_step.
  destruct (negb (is_operator token)); simpl.
  - rewrite <- app_assoc. simpl. symmetry. apply Permutation_middle.
  - rewrite pop_while_spec. simpl.
    etransitivity; [symmetry; apply Permutation_middle|].
    rewrite <- app_assoc, spec_popped_kept. reflexivity.
Qed.

Lemma toPostfix_fold_perm tokens st :
  let st' := fold_left toPostfix_step tokens st in
  Permutation (fst st' ++ snd st') (tokens ++ fst st ++ snd st).
Proof.
  revert st. induction tokens as [|t ts IH]; intros st; simpl.
  - reflexivity.
  - etransitivity; [apply IH|].
    etransitivity; [apply Permutation_app_head, toPostfix_step_perm|].
    symmetry. apply Permutation_middle.
Qed.

Lemma toPostfix_perm tokens : Permutation (toPostfix tokens) tokens.
Proof.
  unfold toPostfix.
  pose proof (toPostfix_fold_perm tokens ([], [])) as H. simpl in H.
  destruct (fold_left toPostfix_step tokens ([], [])) as [output stack].
  simpl in H. now rewrite app_nil_r in H.
Qed.

(** C5: [toPostfix] keeps the number of tokens: its output has the length
    of its input, and is a rearrangement of it (no token is created or
    dropped). *)
Theorem toPostfix_length :
  forall tokens : list str,
    length (toPostfix tokens) = length tokens
    /\ Permutation (toPostfix tokens) tokens.
Proof.
  intros tokens. split.
  - apply Permutation_length, toPostfix_perm.
  - apply toPostfix_perm.
Qed.

(** C1: ["2+3*4"] evaluates to 14: an incoming operator first pops the
    operators on top of the stack whose precedence is greater than or equal
    to its own, then is pushed; so [*] is applied before [+], and operators
    of equal precedence associate to the left. *)
Theorem precedence_respected :
  evaluateExpression "2+3*4" = Some (of_Z 14)
  /\ toResultString (evaluateExpression "2+3*4") = "14"
  /\ toPostfix ["2"; "+"; "3"; "*"; "4"] = ["2"; "3"; "4"; "*"; "+"]
  /\ toPostfix ["8"; "-"; "3"; "-"; "2"] = ["8"; "3"; "-"; "2"; "-"]
  /\ evaluateExpression "8-3-2" = Some (of_Z 3)
  /\ forall token output stack,
       toPostfix_step (output, stack) token
       = if is_operator token
         then (output ++ spec_popped token stack,
               token :: spec_kept token stack)
         else (output ++ [token], stack).
Proof.
  repeat split; try (vm_compute; reflexivity).
  intros token output stack. unfold toPostfix_step.
  destruct (is_operator token); simpl; [|reflexivity].
  now rewrite pop_while_spec.
Qed.

(** ** Strings and numbers *)

Lemma str_eqb_eq a b : str_eqb a b = true <-> a = b.
Proof.
  unfold str_eqb. destruct (list_eq_dec ascii_dec a b); split; congruence.
Qed.

Lemma str_eqb_neq a b : str_eqb a b = false <-> a <> b.
Proof.
  unfold str_eqb. destruct (list_eq_dec ascii_dec a b); split; congruence.
Qed.

Lemma digit_char_is_digit d : 0 <= d < 10 -> is_digit (digit_char d) = true.
Proof.
  intros H.
  assert (d = 0 \/ d = 1 \/ d = 2 \/ d = 3 \/ d = 4 \/ d = 5 \/ d = 6
          \/ d = 7 \/ d = 8 \/ d = 9) as Hd by lia.
  repeat (destruct Hd as [-> | Hd]; [reflexivity|]). subst. reflexivity.
Qed.

Lemma digits_aux_digits fuel :
  forall n acc,
    forallb is_digit acc = true ->
    forallb is_digit (digits_aux fuel n acc) = true.
Proof.
  induction fuel as [|f IH]; intros n acc Hacc; simpl; [assumption|].
  assert (forallb is_digit (digit_char (n mod 10) :: acc) = true) as H.
  { simpl. rewrite Hacc, digit_char_is_digit; [reflexivity|].
    apply Z.mod_pos_bound. lia. }
  destruct (n <? 10); [assumption|]. now apply IH.
Qed.

Lemma digits_aux_nonempty fuel n acc :
  nonempty (digits_aux (S fuel) n acc) = true.
Proof.
  revert n acc. induction fuel as [|f IH]; intros n acc.
  - simpl. now destruct (n <? 10).
  - change (digits_aux (S (S f)) n acc)
      with (let acc' := digit_char (n mod 10) :: acc in
            if n <? 10 then acc' else digits_aux (S f) (n / 10) acc').
    simpl. destruct (n <? 10); [reflexivity|]. apply IH.
Qed.

Lemma digits_of_shape n :
  exists c r, digits_of n = c :: r
              /\ is_digit c = true /\ forallb is_digit r = true.
Proof.
  unfold digits_of.
  pose proof (digits_aux_nonempty (Z.to_nat (Z.log2 n)) n []) as Hne.
  pose proof (digits_aux_digits (S (Z.to_nat (Z.log2 n))) n [] eq_refl) as Hd.
  destruct (digits_aux (S (Z.to_nat (Z.log2 n))) n []) as [|c r];
    [discriminate|].
  simpl in Hd. apply andb_true_iff in Hd. exists c, r. tauto.
Qed.

Lemma digit_or_dot_facts c :
  is_digit_or_dot c = true ->
  is_op_char c = false /\ is_space c = false
  /\ Ascii.eqb c "-" = false /\ Ascii.eqb c "+" = false
  /\ Ascii.eqb c "E" = false.
Proof.
  destruct c as [[] [] [] [] [] [] [] []]; vm_compute; intros H;
    try discriminate H; repeat split.
Qed.

Lemma digit_not_op c : is_digit c = true -> is_op_char c = false.
Proof.
  intros H. apply digit_or_dot_facts. unfold is_digit_or_dot. now rewrite H.
Qed.

Lemma digits_ops_free s : forallb is_digit s = true -> ops_free s = true.
Proof.
  induction s as [|c t IH]; simpl; [reflexivity|].
  intros H. apply andb_true_iff in H as [Hc Ht].
  now rewrite (digit_not_op _ Hc), IH.
Qed.

Lemma ops_free_app a b : ops_free (a ++ b) = ops_free a && ops_free b.
Proof. apply forallb_app. Qed.

Lemma forallb_firstn {A} (p : A -> bool) n l :
  forallb p l = true -> forallb p (firstn n l) = true.
Proof.
  revert l. induction n as [|n IH]; intros [|x l]; simpl; try reflexivity.
  intros H. apply andb_true_iff in H as [Hx Hl]. now rewrite Hx, IH.
Qed.

Lemma forallb_skipn {A} (p : A -> bool) n l :
  forallb p l = true -> forallb p (skipn n l) = true.
Proof.
  revert l. induction n as [|n IH]; intros [|x l]; simpl; try tauto.
  intros H. apply andb_true_iff in H as [Hx Hl]. now apply IH.
Qed.

Lemma ops_free_head s : ops_free s = true -> head_op s = false.
Proof.
  destruct s as [|c t]; simpl; [reflexivity|].
  intros H. apply andb_true_iff in H as [Hc _].
  now apply negb_true_iff in Hc.
Qed.

Lemma adjacent_ops_free_app a b :
  ops_free a = true -> adjacent_ops (a ++ b) = adjacent_ops b.
Proof.
  induction a as [|c t IH]; simpl; [reflexivity|].
  intros H. apply andb_true_iff in H as [Hc Ht].
  apply negb_true_iff in Hc. rewrite Hc. simpl. now apply IH.
Qed.

Lemma adjacent_ops_free a : ops_free a = true -> adjacent_ops a = false.
Proof.
  intros H. rewrite <- (app_nil_r a). now rewrite adjacent_ops_free_app.
Qed.

Lemma adjacent_ops_cons_free c d :
  ops_free d = true -> adjacent_ops (c :: d) = false.
Proof.
  intros H. simpl.
  now rewrite (ops_free_head _ H), (adjacent_ops_free _ H), andb_false_r.
Qed.

Lemma zeros_ops_free n : ops_free (zeros n) = true.
Proof.
  unfold zeros. induction (Z.to_nat n) as [|k IH]; simpl; [reflexivity|].
  exact IH.
Qed.

(** The layout of a finite number: it starts with a digit and has no two
    adjacent operator characters. *)
Lemma format_decimal_shape sn :
  exists c r, format_decimal sn = c :: r
              /\ is_digit c = true /\ adjacent_ops (c :: r) = false.
Proof.
  destruct sn as [s n]. unfold format_decimal.
  destruct (digits_of_shape s) as (c & r & -> & Hc & Hr).
  assert (ops_free (c :: r) = true) as Hfree
      by (apply digits_ops_free; simpl; now rewrite Hc, Hr).
  assert (ops_free r = true) as Hfr by now apply digits_ops_free.
  destruct (digits_of_shape (Z.abs (n - 1))) as (c' & r' & -> & Hc' & Hr').
  assert (ops_free (c' :: r') = true) as Hfree'
      by (apply digits_ops_free; simpl; now rewrite Hc', Hr').
  set (k := Z.of_nat (length (c :: r))).
  destruct ((k <=? n) && (n <=? 21)).
  { exists c, (r ++ zeros (n - k)). repeat split; try assumption.
    change (c :: r ++ zeros (n - k)) with ((c :: r) ++ zeros (n - k)).
    apply adjacent_ops_free. now rewrite ops_free_app, Hfree, zeros_ops_free. }
  destruct ((0 <? n) && (n <=? 21)) eqn:Hn.
  { apply andb_true_iff in Hn as [Hn _]. apply Z.ltb_lt in Hn.
    destruct (Z.to_nat n) as [|j] eqn:Hj; [lia|].
    exists c, (firstn j r ++ "." ++ skipn j r). repeat split; try assumption.
    change (c :: firstn j r ++ "." ++ skipn j r)
      with ((c :: firstn j r) ++ "." ++ skipn j r).
    apply adjacent_ops_free. rewrite !ops_free_app. simpl.
    apply andb_true_iff in Hfree as [-> _]. simpl.
    unfold ops_free in *.
    now rewrite forallb_firstn, forallb_skipn. }
  destruct ((-6 <? n) && (n <=? 0)).
  { exists "0"%char, ("." ++ zeros (- n) ++ c :: r).
    repeat split.
    change ("0"%char :: "." ++ zeros (- n) ++ c :: r)
      with ("0." ++ zeros (- n) ++ c :: r).
    apply adjacent_ops_free.
    now rewrite !ops_free_app, zeros_ops_free, Hfree. }
  assert (forall sg : ascii, adjacent_ops ("e" ++ sg :: c' :: r') = false)
    as Hexp.
  { intros sg. rewrite adjacent_ops_free_app by reflexivity.
    now apply adjacent_ops_cons_free. }
  destruct (k =? 1).
  - exists c, (r ++ "e" ++ (if n - 1 <? 0 then "-" else "+") ++ c' :: r').
    repeat split; try assumption.
    change (c :: r ++ "e" ++ (if n - 1 <? 0 then "-" else "+") ++ c' :: r')
      with ((c :: r) ++ "e" ++ (if n - 1 <? 0 then "-" else "+") ++ c' :: r').
    rewrite adjacent_ops_free_app by assumption.
    destruct (n - 1 <? 0); apply Hexp.
  - exists c, ("." ++ r ++ "e" ++ (if n - 1 <? 0 then "-" else "+") ++ c' :: r').
    repeat split; try assumption.
    change (skipn 1 (c :: r)) with r. change (firstn 1 (c :: r)) with [c].
    change (c :: "." ++ r ++ "e" ++ (if n - 1 <? 0 then "-" else "+") ++ c' :: r')
      with (([c] ++ "." ++ r)
              ++ "e" ++ (if n - 1 <? 0 then "-" else "+") ++ c' :: r').
    rewrite adjacent_ops_free_app.
    + destruct (n - 1 <? 0); apply Hexp.
    + rewrite !ops_free_app, Hfr. simpl.
      apply andb_true_iff in Hfree as [-> _]. reflexivity.
Qed.

(** What [String(x)] looks like: it is not empty, it does not start with
    [E], it starts with an operator character only for a negative [x], and
    no two operator characters are adjacent in it. *)
Lemma toString_shape x :
  exists c r, toString x = c :: r
              /\ c <> "E"%char
              /\ (is_op_char c = true -> is_neg x = true)
              /\ adjacent_ops (toString x) = false.
Proof.
  destruct x as [s|s| |s m e]; simpl.
  - exists "0"%char, []. repeat split; discriminate.
  - destruct s; [exists "-"%char, "Infinity" | exists "I"%char, "nfinity"];
      repeat split; discriminate.
  - exists "N"%char, "aN". repeat split; discriminate.
  - destruct (format_decimal_shape (shortest_decimal m e))
      as (c & r & -> & Hc & Hadj).
    destruct (digit_or_dot_facts c) as (Hop & _ & _ & _ & HE).
    { unfold is_digit_or_dot. now rewrite Hc. }
    destruct s.
    + exists "-"%char, (c :: r). repeat split; try discriminate.
      change (adjacent_ops ("-" ++ c :: r))
        with ((is_op_char "-" && is_op_char c) || adjacent_ops (c :: r)).
      now rewrite Hop, Hadj.
    + exists c, r. split; [reflexivity|]. split; [|split].
      * intros ->. discriminate HE.
      * intros H. congruence.
      * exact Hadj.
Qed.

(** ** Division by zero *)

(** C3: dividing by zero gives not-a-number, whatever the left operand
    is (a number, or missing from the stack); ["10/0"] evaluates to a value
    that is not finite and is shown as ["Error"]. *)
Theorem division_by_zero_is_NaN :
  (forall (a b : number) (rest : list number),
      is_zero (Some b) = true ->
      evalPostfix_step (b :: a :: rest) "/" = NaN :: rest)
  /\ (forall b : number,
         is_zero (Some b) = true -> evalPostfix_step [b] "/" = [NaN])
  /\ (exists v, evaluateExpression "10/0" = Some v /\ isFinite v = false)
  /\ toResultString (evaluateExpression "10/0") = "Error".
Proof.
  split; [|split; [|split]].
  - intros a b rest Hb. unfold evalPostfix_step.
    change (negb (is_operator "/")) with false. cbn [pop].
    destruct (opt_isNaN (Some a) || opt_isNaN (Some b)); [reflexivity|].
    rewrite Hb. reflexivity.
  - intros b Hb. unfold evalPostfix_step.
    change (negb (is_operator "/")) with false. cbn [pop].
    destruct (opt_isNaN None || opt_isNaN (Some b)); [reflexivity|].
    rewrite Hb. reflexivity.
  - exists NaN. split; vm_compute; reflexivity.
  - vm_compute. reflexivity.
Qed.

Lemma division_by_zero_is_NaN_witness :
  is_zero (Some (S754_zero true)) = true
  /\ evalPostfix_step [S754_zero true; of_Z 7] "/" = [NaN].
Proof.
  split.
  - reflexivity.
  - apply (proj1 division_by_zero_is_NaN (of_Z 7) (S754_zero true) []).
    reflexivity.
Defined.

(** ** The equals command *)

Lemma toResultString_Error value :
  toResultString value = "Error"
  <-> match value with
      | Some v => isFinite v = false
      | None => True
      end.
Proof.
  destruct value as [v|]; simpl; [|tauto].
  destruct (isFinite v); simpl; [|tauto].
  split; [|discriminate].
  set (rounded := div _ _).
  destruct (toString_shape rounded) as (c & r & Hs & HE & _).
  intros H. exfalso.
  destruct (isInteger rounded); rewrite Hs in H; injection H as Hc _;
    now apply HE.
Qed.

Lemma handleAction_Equals uuid st :
  handleAction uuid Equals st
  = if equals_ok st
    then {| expression := answer_of (expression st);
            history := firstn 20 (entry_of uuid st :: history st) |}
    else if nonempty (expression st)
              && negb (ends_in_operator (expression st))
         then {| expression := []; history := history st |}
         else st.
Proof.
  unfold handleAction, equals_ok, answer_of, entry_of, set_expression.
  destruct (nonempty (expression st)); simpl; [|reflexivity].
  destruct (ends_in_operator (expression st)); simpl; [reflexivity|].
  destruct (str_eqb _ "Error"); reflexivity.
Qed.

(** C6: on [equals] with a buffer that is not empty and does not end in an
    operator, an answer of ["Error"] -- which is the answer exactly when
    the value is not finite -- empties the buffer and leaves the history
    as it was; any other answer becomes the buffer, and its entry is put
    at the front of the history. *)
Theorem equals_error_resets_buffer :
  forall (uuid : str) (st : state),
    expression st <> [] ->
    ends_in_operator (expression st) = false ->
    let answer := toResultString (evaluateExpression (expression st)) in
    (answer = "Error"
     <-> match evaluateExpression (expression st) with
         | Some v => isFinite v = false
         | None => True
         end)
    /\ (answer = "Error" ->
        handleAction uuid Equals st
        = {| expression := []; history := history st |})
    /\ (answer <> "Error" ->
        handleAction uuid Equals st
        = {| expression := answer;
             history :=
               firstn 20 ({| e_expression := expression st;
                             e_result := answer;
                             e_id := uuid |} :: history st) |}
        /\ nth_error (history (handleAction uuid Equals st)) 0
           = Some {| e_expression := expression st;
                     e_result := answer;
                     e_id := uuid |}).
Proof.
  intros uuid st Hne Hop answer.
  split; [apply toResultString_Error|].
  rewrite handleAction_Equals. unfold equals_ok, answer_of. fold answer.
  rewrite Hop.
  destruct (expression st) as [|c e] eqn:He; [congruence|]. simpl.
  split.
  - intros Hans. apply str_eqb_eq in Hans. now rewrite Hans.
  - intros Hans. apply str_eqb_neq in Hans. rewrite Hans. simpl.
    unfold entry_of, answer_of. rewrite He. fold answer. split; reflexivity.
Qed.

Lemma equals_error_resets_buffer_witness :
  handleAction "id" Equals {| expression := "10/0"; history := [] |}
  = {| expression := []; history := [] |}.
Proof.
  refine (proj1 (proj2 (equals_error_resets_buffer "id"
            {| expression := "10/0"; history := [] |} _ _)) _).
  - discriminate.
  - reflexivity.
  - vm_compute. reflexivity.
Defined.

(** C8: after a successful [equals], the first history entry holds the
    buffer as it was just before the command. *)
Theorem equals_history_round_trip :
  forall (uuid : str) (st : state),
    equals_ok st = true ->
    exists en,
      nth_error (history (handleAction uuid Equals st)) 0 = Some en
      /\ e_expression en = expression st.
Proof.
  intros uuid st Hok. rewrite handleAction_Equals, Hok.
  exists (entry_of uuid st). split; reflexivity.
Qed.

Lemma equals_history_round_trip_witness :
  exists en,
    nth_error
      (history (handleAction "id" Equals
                  {| expression := "2+3*4"; history := [] |})) 0 = Some en
    /\ e_expression en = "2+3*4".
Proof.
  apply (equals_history_round_trip "id"
           {| expression := "2+3*4"; history := [] |}).
  vm_compute. reflexivity.
Defined.

(** ** The history *)

Lemma step_history st ev :
  history (step st ev)
  = if is_successful_equals st ev
    then firstn 20 (entry_of match ev with
                             | Command _ uuid => uuid
                             | _ => []
                             end st :: history st)
    else if is_clear_history ev then [] else history st.
Proof.
  destruct ev as [newChar|a uuid| |i];
    cbn [step is_successful_equals is_clear_history]; try reflexivity.
  - destruct a; try reflexivity.
    + unfold handleAction. destruct (_ || _); [reflexivity|].
      destruct (match_trailing _); reflexivity.
    + unfold handleAction. destruct (match_trailing _); reflexivity.
    + rewrite handleAction_Equals.
      destruct (equals_ok st); [reflexivity|].
      destruct (_ && _); reflexivity.
  - destruct (nth_error _ i); reflexivity.
Qed.

Lemma step_history_bound st ev :
  (length (history st) <= 20)%nat ->
  (length (history (step st ev)) <= 20)%nat.
Proof.
  intros H. rewrite step_history.
  destruct (is_successful_equals st ev).
  - rewrite length_firstn. lia.
  - destruct (is_clear_history ev); simpl; lia.
Qed.

Lemma run_history_bound evs :
  forall st,
    (length (history st) <= 20)%nat ->
    (length (history (run st evs)) <= 20)%nat.
Proof.
  induction evs as [|ev evs IH]; intros st H; simpl; [assumption|].
  apply IH, step_history_bound, H.
Qed.

Lemma run_history_length evs :
  forall st n,
    length (history st) = Nat.min 20 n ->
    length (history (run st evs)) = Nat.min 20 (successes st evs n).
Proof.
  induction evs as [|ev evs IH]; intros st n Hlen;
    cbn [run fold_left successes]; [assumption|].
  fold (run (step st ev) evs). apply IH.
  rewrite step_history.
  destruct (is_successful_equals st ev) eqn:Hs.
  - assert (is_clear_history ev = false) as ->
        by (destruct ev as [?|[] ?| |?]; try discriminate Hs; reflexivity).
    rewrite length_firstn. cbn [length]. lia.
  - destruct (is_clear_history ev); [reflexivity|assumption].
Qed.

Lemma run_latest evs :
  forall st,
    nth_error (history (run st evs)) 0
    = latest st evs (nth_error (history st) 0).
Proof.
  induction evs as [|ev evs IH]; intros st;
    cbn [run fold_left latest]; [reflexivity|].
  fold (run (step st ev) evs).
  rewrite IH. f_equal.
  rewrite step_history.
  destruct ev as [newChar|a uuid| |i]; try reflexivity.
  destruct a; try reflexivity.
  cbn [is_successful_equals]. destruct (equals_ok st); reflexivity.
Qed.

(** C7: the history never holds more than 20 entries, whatever is done;
    and after more than 20 successful [equals] commands (counted since the
    history was last cleared, if it was) it holds exactly 20, the first of
    which is the entry of the most recent successful [equals]. *)
Theorem history_bounded_newest_first :
  forall evs : list event,
    (length (history (run initial evs)) <= 20)%nat
    /\ ((20 < successes initial evs 0)%nat ->
        length (history (run initial evs)) = 20%nat
        /\ exists en,
             nth_error (history (run initial evs)) 0 = Some en
             /\ latest initial evs None = Some en).
Proof.
  intros evs. split.
  - apply run_history_bound. cbn. lia.
  - intros Hn.
    assert (length (history (run initial evs)) = 20%nat) as Hlen.
    { rewrite (run_history_length evs initial 0) by reflexivity. lia. }
    split; [assumption|].
    destruct (history (run initial evs)) as [|en h] eqn:Hh;
      [discriminate|].
    exists en. split; [reflexivity|].
    change None with (nth_error (history initial) 0).
    rewrite <- (run_latest evs initial), Hh. reflexivity.
Qed.

Lemma history_bounded_newest_first_witness :
  let evs :=
    keys "1" ++ concat (repeat (keys "+1" ++ [Command Equals "id"]) 21) in
  length (history (run initial evs)) = 20%nat
  /\ exists en,
       nth_error (history (run initial evs)) 0 = Some en
       /\ latest initial evs None = Some en.
Proof.
  intros evs.
  apply (proj2 (history_bounded_newest_first evs)).
  apply Nat.ltb_lt. vm_compute. reflexivity.
Defined.

(** ** The sign command *)

(** C9, at the buffer ["5-3"]: the first [sign] takes the binary minus for
    the sign of the last number and removes it, the second one puts a
    minus in front of the merged number; the buffer does not come back. *)
Theorem sign_twice_on_5_minus_3 :
  let st := run initial (keys "5-3") in
  expression st = "5-3"
  /\ expression (handleAction "id" Sign st) = "53"
  /\ expression (handleAction "id" Sign (handleAction "id" Sign st)) = "-53".
Proof. vm_compute. repeat split. Qed.

(** ** tokenize *)

Lemma is_minus_token_single c : is_minus_token [c] = Ascii.eqb c "-".
Proof.
  unfold is_minus_token. destruct (Ascii.eqb_spec c "-") as [->|Hc].
  - reflexivity.
  - apply str_eqb_neq. intros H. injection H as H. contradiction.
Qed.

Lemma number_token_facts t :
  is_number_token t = true ->
  is_operator t = false
  /\ is_minus_token t = false
  /\ is_negative_token t = startsWith_minus t.
Proof.
  unfold is_number_token, is_negative_token, is_minus_token.
  destruct t as [|c [|c' t']].
  - discriminate.
  - destruct (Ascii.eqb_spec c "-") as [->|Hc]; [discriminate|].
    cbn [startsWith_minus]. 
    destruct (Ascii.eqb_spec c "-") as [->|_]; [contradiction|].
    cbn [nonempty forallb]. rewrite andb_true_r. intros H.
    destruct (digit_or_dot_facts c H) as (Hop & _).
    repeat split; try assumption.
    apply str_eqb_neq. intros E. injection E as E. contradiction.
  - intros _. repeat split.
    + apply str_eqb_neq. discriminate.
    + assert (str_eqb (c :: c' :: t') "-" = false) as ->
          by (apply str_eqb_neq; discriminate).
      apply andb_true_r.
Qed.

Lemma number_token_snoc nb c :
  is_digit_or_dot c = true ->
  nb = [] \/ is_number_token nb = true \/ nb = "-" ->
  is_number_token (nb ++ [c]) = true
  /\ startsWith_minus (nb ++ [c]) = startsWith_minus nb.
Proof.
  intros Hc Hnb.
  destruct (digit_or_dot_facts c Hc) as (_ & _ & Hm & _).
  destruct Hnb as [->|[Hnb| ->]].
  - unfold is_number_token. simpl. rewrite Hm. simpl. now rewrite Hc.
  - destruct nb as [|a nb]; [discriminate|]. split; [|reflexivity].
    unfold is_number_token in *. cbn [app startsWith_minus] in *.
    destruct (Ascii.eqb a "-").
    + cbn [slice_1 skipn] in *.
      apply andb_true_iff in Hnb as [_ Hall].
      rewrite forallb_app, Hall. simpl. rewrite Hc.
      now destruct nb.
    + apply andb_true_iff in Hnb as [_ Hall].
      change ((a :: nb) ++ [c]) with (a :: nb ++ [c]) in *.
      change (a :: nb ++ [c]) with ((a :: nb) ++ [c]).
      rewrite forallb_app, Hall. simpl. now rewrite Hc.
  - unfold is_number_token. simpl. now rewrite Hc.
Qed.

Lemma no_adjacent_numbers_snoc tokens t :
  no_adjacent_numbers tokens = true ->
  is_operator (last tokens "+") = true \/ is_operator t = true ->
  no_adjacent_numbers (tokens ++ [t]) = true.
Proof.
  induction tokens as [|a rest IH]; intros Hadj Hlast.
  - simpl. now rewrite orb_true_r.
  - destruct rest as [|b rest'].
    + simpl in *. rewrite orb_true_r, andb_true_r.
      destruct Hlast as [-> | ->]; [reflexivity|apply orb_true_r].
    + change (no_adjacent_numbers ((a :: b :: rest') ++ [t]))
        with ((is_operator a || is_operator b)
              && no_adjacent_numbers ((b :: rest') ++ [t])).
      change (no_adjacent_numbers (a :: b :: rest'))
        with ((is_operator a || is_operator b)
              && no_adjacent_numbers (b :: rest')) in Hadj.
      apply andb_true_iff in Hadj as [-> Hadj]. simpl andb.
      apply IH; assumption.
Qed.

Lemma count_if_snoc {A} (p : A -> bool) l x :
  count_if p (l ++ [x]) = (count_if p l + (if p x then 1 else 0))%nat.
Proof.
  unfold count_if. rewrite filter_app, length_app. simpl.
  now destruct (p x).
Qed.

(** Pushing the number buffer, when it is empty or a number token. *)
Lemma flush_facts tokens nb :
  forallb token_ok tokens = true ->
  no_adjacent_numbers tokens = true ->
  is_operator (last tokens "+") = true ->
  nb = [] \/ is_number_token nb = true ->
  forallb token_ok (flush tokens nb) = true
  /\ no_adjacent_numbers (flush tokens nb) = true
  /\ count_if is_minus_token (flush tokens nb)
     = count_if is_minus_token tokens
  /\ count_if is_negative_token (flush tokens nb)
     = (count_if is_negative_token tokens
        + (if startsWith_minus nb then 1 else 0))%nat.
Proof.
  intros Htok Hadj Hlast [->|Hnb]; unfold flush.
  - simpl. repeat split; try assumption. lia.
  - destruct nb as [|c nb']; [discriminate|]. cbn [nonempty].
    destruct (number_token_facts _ Hnb) as (Hop & Hminus & Hneg).
    rewrite !count_if_snoc, Hminus, Hneg.
    repeat split.
    + rewrite forallb_app, Htok. simpl. unfold token_ok.
      now rewrite Hnb, orb_true_r.
    + apply no_adjacent_numbers_snoc; auto.
    + lia.
Qed.

Lemma unaryMinus_spec raw i c :
  unaryMinus raw i c = Ascii.eqb c "-" && unary_position raw i.
Proof. unfold unaryMinus, unary_position. now rewrite andb_assoc. Qed.

Ltac split_inv :=
  constructor; cbn [fst snd]; unfold buffer_ok, fresh_after_op;
  cbn [Nat.eqb char_before orb];
  try match goal with H : nth_error _ _ = Some _ |- _ => rewrite H end.

(** The loop of [tokenize] on a fixed input. *)
Section TokenizeLoop.

Variable raw : str.

Lemma tokenize_step_inv i st :
  (i < length raw)%nat ->
  tokenizer_inv raw i st ->
  tokenizer_inv raw (S i) (tokenize_step raw st i).
Proof.
  intros Hi [Htok Hadj Hlast Hbuf Hfresh Hbin Hun].
  destruct st as [tokens nb]. cbn [fst snd] in *.
  destruct (nth_error raw i) as [c|] eqn:Hc;
    [|apply nth_error_None in Hc; lia].
  assert (Hseq_b : count_if (binary_minus_at raw) (seq 0 (S i))
                   = (count_if (binary_minus_at raw) (seq 0 i)
                      + (if Ascii.eqb c "-" && negb (unary_position raw i)
                         then 1 else 0))%nat).
  { rewrite seq_S, count_if_snoc. cbn [Nat.add].
    assert (binary_minus_at raw i
            = Ascii.eqb c "-" && negb (unary_position raw i)) as ->
        by (unfold binary_minus_at, minus_at; now rewrite Hc).
    reflexivity. }
  assert (Hseq_u : count_if (unary_minus_at raw) (seq 0 (S i))
                   = (count_if (unary_minus_at raw) (seq 0 i)
                      + (if Ascii.eqb c "-" && unary_position raw i
                         then 1 else 0))%nat).
  { rewrite seq_S, count_if_snoc. cbn [Nat.add].
    assert (unary_minus_at raw i
            = Ascii.eqb c "-" && unary_position raw i) as ->
        by (unfold unary_minus_at, minus_at; now rewrite Hc).
    reflexivity. }
  unfold tokenize_step. rewrite Hc, unaryMinus_spec.
  pose proof Hc as Hc'.
  unfold fresh_after_op, buffer_ok in *. cbn [Nat.eqb char_before orb] in *.
  rewrite Hc in *.
  destruct (is_digit_or_dot c) eqn:Hdd.
  { (* a digit or a decimal point joins the buffer *)
    destruct (digit_or_dot_facts c Hdd) as (Hop & _ & Hm & _).
    rewrite Hm in *. cbn [orb andb] in *.
    destruct (number_token_snoc nb c Hdd) as [Hnum Hsw]; [tauto|].
    split_inv; try assumption.
    - tauto.
    - cbn [has_op]. rewrite Hop. discriminate.
    - lia.
    - rewrite Hsw. lia. }
  cbn [orb].
  destruct (Ascii.eqb c "-" && unary_position raw i) eqn:Hum.
  { (* a sign opens a number *)
    apply andb_true_iff in Hum as [Hm Hup].
    rewrite Hm, Hup in Hseq_b. cbn [andb negb] in Hseq_b.
    apply Ascii.eqb_eq in Hm. subst c.
    unfold unary_position in Hup. apply andb_true_iff in Hup as [Hpos Hnext].
    assert (nb = []) as ->.
    { destruct i as [|j]; cbn [Nat.eqb char_before orb] in *.
      - destruct Hfresh as [H|H]; [reflexivity|assumption|discriminate H].
      - destruct Hfresh as [H|H]; [assumption|assumption|discriminate H]. }
    split_inv; cbn [app]; try assumption.
    - right. right. split; [reflexivity|assumption].
    - intros _. right. assumption.
    - lia.
    - cbn [startsWith_minus] in *.
      rewrite Ascii.eqb_refl. cbv iota. lia. }
  assert (Hnb : nb = [] \/ is_number_token nb = true).
  { destruct Hbuf as [H|[H|[_ H]]]; [tauto|tauto|].
    cbn [test_digit_or_dot] in H. congruence. }
  destruct (is_op_char c) eqn:Hop.
  { (* a binary operator closes the buffer *)
    destruct (flush_facts tokens nb Htok Hadj Hlast Hnb)
      as (Htok' & Hadj' & Hbin' & Hun').
    split_inv.
    - rewrite forallb_app, Htok'. cbn. unfold token_ok. cbn [is_operator].
      now rewrite Hop.
    - apply no_adjacent_numbers_snoc; [assumption|].
      right. cbn [is_operator]. assumption.
    - rewrite last_last. cbn [is_operator]. assumption.
    - left. reflexivity.
    - intros _. left. reflexivity.
    - rewrite count_if_snoc, Hbin', is_minus_token_single, Hseq_b.
      destruct (Ascii.eqb c "-"); cbn [andb] in *.
      + rewrite Hum. cbn [negb]. lia.
      + lia.
    - assert (is_negative_token [c] = false) as Hneg.
      { unfold is_negative_token. cbn [startsWith_minus].
        fold (is_minus_token [c]). rewrite is_minus_token_single.
        now destruct (Ascii.eqb c "-"). }
      rewrite count_if_snoc, Hun', Hseq_u, Hneg.
      cbn [startsWith_minus]. lia. }
  (* any other character is skipped *)
  assert (Ascii.eqb c "-" = false) as Hm.
  { destruct (Ascii.eqb_spec c "-") as [->|]; [discriminate Hop|reflexivity]. }
  rewrite Hm in *. cbn [andb] in *.
  split_inv; try assumption.
  - tauto.
  - cbn [has_op]. rewrite Hop. discriminate.
  - lia.
  - lia.
Qed.

Lemma tokenize_prefix_inv n :
  (n <= length raw)%nat ->
  tokenizer_inv raw n (fold_left (tokenize_step raw) (seq 0 n) ([], [])).
Proof.
  induction n as [|n IH]; intros Hn.
  - cbn [seq fold_left]. split_inv; try reflexivity.
    + now left.
    + intros _. now left.
  - rewrite seq_S, fold_left_app. cbn [fold_left Nat.add].
    apply tokenize_step_inv; [lia|]. apply IH. lia.
Qed.

Lemma tokenize_loop_inv :
  tokenizer_inv raw (length raw) (tokenize_loop raw).
Proof. apply tokenize_prefix_inv. lia. Qed.

(** At the end of the input the buffer is empty or a number token. *)
Lemma tokenize_loop_buffer :
  snd (tokenize_loop raw) = []
  \/ is_number_token (snd (tokenize_loop raw)) = true.
Proof.
  destruct tokenize_loop_inv as [_ _ _ Hb _ _ _].
  destruct Hb as [H|[H|[_ H]]]; [tauto|tauto|].
  rewrite (proj2 (nth_error_None raw (length raw))) in H by lia.
  discriminate H.
Qed.

Lemma tokenize_facts :
  forallb token_ok (tokenize raw) = true
  /\ no_adjacent_numbers (tokenize raw) = true
  /\ count_if is_minus_token (tokenize raw)
     = count_if (binary_minus_at raw) (seq 0 (length raw))
  /\ count_if is_negative_token (tokenize raw)
     = count_if (unary_minus_at raw) (seq 0 (length raw)).
Proof.
  pose proof tokenize_loop_inv as [Htok Hadj Hlast _ _ Hbin Hun].
  pose proof tokenize_loop_buffer as Hnb.
  unfold tokenize.
  destruct (tokenize_loop raw) as [tokens nb]. cbn [fst snd] in *.
  destruct (flush_facts tokens nb Htok Hadj Hlast Hnb)
    as (Htok' & Hadj' & Hbin' & Hun').
  repeat split; congruence.
Qed.

End TokenizeLoop.

(** C10: every token of [tokenize raw] is one of the four operator
    strings or a number token (an optional minus sign and then a non-empty
    run of digits and decimal points), never both, and no two number tokens
    are neighbours. *)
Theorem tokenize_tokens_shape :
  forall raw : str,
    Forall (fun t => (is_operator t = true /\ is_number_token t = false)
                     \/ (is_operator t = false /\ is_number_token t = true))
           (tokenize raw)
    /\ no_adjacent_numbers (tokenize raw) = true.
Proof.
  intros raw. destruct (tokenize_facts raw) as (Htok & Hadj & _).
  split; [|assumption].
  apply Forall_forall. intros t Ht.
  rewrite forallb_forall in Htok. specialize (Htok t Ht).
  unfold token_ok in Htok.
  destruct (is_number_token t) eqn:Hnum.
  - right. split; [|reflexivity]. now apply number_token_facts.
  - left. rewrite orb_false_r in Htok. tauto.
Qed.

(** C4: at a minus character the loop of [tokenize] appends it to the
    number buffer when the position is the first one or follows an
    operator character and a digit or decimal point comes next, and
    otherwise closes the buffer and emits the operator token [-]; so the
    [-] operator tokens of the result are as many as the minus characters
    at the other positions, and the negative number tokens as many as the
    minus characters at those positions.  ["-5+2"] evaluates to -3. *)
Theorem unary_minus_exactly_when :
  (forall (raw : str) (i : nat) (tokens : list str) (numberBuffer : str),
      nth_error raw i = Some "-"%char ->
      tokenize_step raw (tokens, numberBuffer) i
      = if unary_position raw i
        then (tokens, numberBuffer ++ "-")
        else (flush tokens numberBuffer ++ ["-"], []))
  /\ (forall raw : str,
         count_if is_minus_token (tokenize raw)
         = count_if (binary_minus_at raw) (seq 0 (length raw))
         /\ count_if is_negative_token (tokenize raw)
            = count_if (unary_minus_at raw) (seq 0 (length raw)))
  /\ tokenize "-5+2" = ["-5"; "+"; "2"]
  /\ evaluateExpression "-5+2" = Some (of_Z (-3)).
Proof.
  split; [|split; [|split]].
  - intros raw i tokens nb Hc. unfold tokenize_step.
    rewrite Hc, unaryMinus_spec.
    change (is_digit_or_dot "-") with false.
    change (Ascii.eqb "-" "-") with true.
    change (is_op_char "-") with true. cbn [orb andb].
    now destruct (unary_position raw i).
  - intros raw. destruct (tokenize_facts raw) as (_ & _ & Hbin & Hun).
    split; assumption.
  - vm_compute. reflexivity.
  - vm_compute. reflexivity.
Qed.

Lemma unary_minus_exactly_when_witness :
  nth_error "3*-2" 2 = Some "-"%char
  /\ tokenize_step "3*-2" (["3"; "*"], []) 2 = (["3"; "*"], "-")
  /\ tokenize_step "3-2" (["3"], []) 1 = (["3"; "-"], []).
Proof.
  split; [reflexivity|]. split.
  - exact (proj1 unary_minus_exactly_when "3*-2" 2%nat ["3"; "*"] [] eq_refl).
  - exact (proj1 unary_minus_exactly_when "3-2" 1%nat ["3"] [] eq_refl).
Defined.

(** ** The expression buffer *)

Lemma at_last_snoc s c : at_last (s ++ [c]) = Some c.
Proof. unfold at_last. now rewrite rev_app_distr. Qed.

Lemma at_last_last s :
  at_last s = match s with
              | [] => None
              | _ :: _ => Some (last s "0"%char)
              end.
Proof.
  induction s as [|x l _] using rev_ind; [reflexivity|].
  rewrite at_last_snoc, last_last. now destruct l.
Qed.

Lemma at_last_cons c d t : at_last (c :: d :: t) = at_last (d :: t).
Proof. now rewrite !at_last_last. Qed.

Lemma at_last_Some s c : at_last s = Some c -> exists s', s = s' ++ [c].
Proof.
  unfold at_last. intros H.
  destruct (rev s) as [|x r] eqn:Hr; [discriminate|].
  injection H as ->. exists (rev r).
  rewrite <- (rev_involutive s), Hr. reflexivity.
Qed.

Lemma adjacent_ops_app a b :
  adjacent_ops (a ++ b)
  = adjacent_ops a || adjacent_ops b || (has_op (at_last a) && head_op b).
Proof.
  induction a as [|c t IH].
  { cbn [app adjacent_ops at_last rev has_op andb orb].
    now rewrite orb_false_r. }
  destruct t as [|d t'].
  - cbn [app adjacent_ops head_op at_last rev has_op].
    destruct (is_op_char c), (head_op b), (adjacent_ops b); reflexivity.
  - change (adjacent_ops ((c :: d :: t') ++ b))
      with ((is_op_char c && is_op_char d)
            || adjacent_ops ((d :: t') ++ b)).
    change (adjacent_ops (c :: d :: t'))
      with ((is_op_char c && is_op_char d) || adjacent_ops (d :: t')).
    rewrite IH, at_last_cons.
    destruct (is_op_char c && is_op_char d), (adjacent_ops (d :: t')),
      (adjacent_ops b); reflexivity.
Qed.

Lemma adjacent_ops_join a b :
  adjacent_ops a = false ->
  adjacent_ops b = false ->
  has_op (at_last a) = false \/ head_op b = false ->
  adjacent_ops (a ++ b) = false.
Proof.
  intros Ha Hb [H|H]; rewrite adjacent_ops_app, Ha, Hb, H;
    [reflexivity|apply andb_false_r].
Qed.

Lemma adjacent_ops_split a b :
  adjacent_ops (a ++ b) = false ->
  adjacent_ops a = false
  /\ adjacent_ops b = false
  /\ (head_op b = true -> has_op (at_last a) = false).
Proof.
  rewrite adjacent_ops_app. intros H.
  apply orb_false_iff in H as [H Hj]. apply orb_false_iff in H as [Ha Hb].
  repeat split; try assumption.
  intros Hh. now rewrite Hh, andb_true_r in Hj.
Qed.

Lemma adjacent_ops_firstn n s :
  adjacent_ops s = false -> adjacent_ops (firstn n s) = false.
Proof.
  intros H. rewrite <- (firstn_skipn n s) in H.
  now apply adjacent_ops_split in H.
Qed.

Lemma adjacent_ops_slice_off s n :
  adjacent_ops s = false -> adjacent_ops (slice_off s n) = false.
Proof.
  intros H. destruct n; [reflexivity|]. now apply adjacent_ops_firstn.
Qed.

Lemma slice_off_app pre cur :
  cur <> [] -> slice_off (pre ++ cur) (length cur) = pre.
Proof.
  intros Hne. unfold slice_off.
  destruct (length cur) as [|n] eqn:Hn.
  - destruct cur; [contradiction|discriminate].
  - rewrite length_app, Hn.
    replace (length pre + S n - S n)%nat with (length pre + 0)%nat by lia.
    rewrite firstn_app_2. cbn [firstn]. apply app_nil_r.
Qed.

Lemma adjacent_ops_single c : adjacent_ops [c] = false.
Proof. cbn [adjacent_ops head_op]. now rewrite andb_false_r. Qed.

(** Typing one character keeps the buffer free of adjacent operators. *)
Lemma normalizeInput_adjacent c e :
  adjacent_ops e = false -> adjacent_ops (normalizeInput [c] e) = false.
Proof.
  intros He. unfold normalizeInput. cbn [existsb]. rewrite orb_false_r.
  destruct (is_digit c) eqn:Hd.
  { apply adjacent_ops_join; [assumption|apply adjacent_ops_single|].
    right. cbn [head_op]. now apply digit_not_op. }
  destruct (str_eqb [c] ".").
  { destruct (negb _); [|assumption].
    destruct (nonempty _);
      (apply adjacent_ops_join; [assumption|reflexivity|now right]). }
  cbn [is_operator].
  destruct (is_op_char c) eqn:Hop; [|assumption].
  destruct e as [|a e']; cbn [nonempty negb].
  { now destruct (str_eqb [c] "-"). }
  destruct (has_op (at_last (a :: e'))) eqn:Hlast.
  - destruct (at_last (a :: e')) as [l|] eqn:Hl; [|discriminate].
    destruct (at_last_Some _ _ Hl) as [pre Hpre]. rewrite Hpre in *.
    change 1%nat with (length [l]).
    rewrite slice_off_app by discriminate.
    apply adjacent_ops_split in He as (Hpre_adj & _ & Hj).
    apply adjacent_ops_join; [assumption|apply adjacent_ops_single|].
    left. apply Hj. exact Hlast.
  - apply adjacent_ops_join; [assumption|apply adjacent_ops_single|now left].
Qed.

Lemma match_trailing_Some e cur :
  match_trailing e = Some cur ->
  matches_num cur = true /\ exists pre, e = pre ++ cur.
Proof.
  induction e as [|c t IH]; cbn [match_trailing].
  - destruct (matches_num []) eqn:Hm; [|discriminate].
    intros H. injection H as <-. split; [assumption|]. now exists [].
  - destruct (matches_num (c :: t)) eqn:Hm.
    + intros H. injection H as <-. split; [assumption|]. now exists [].
    + intros H. destruct (IH H) as (Hcur & pre & ->).
      split; [assumption|]. now exists (c :: pre).
Qed.

Lemma matches_num_head cur :
  matches_num cur = true ->
  exists c t, cur = c :: t
              /\ (Ascii.eqb c "-" = true \/ is_digit_or_dot c = true).
Proof.
  destruct cur as [|c t]; [discriminate|].
  intros H. exists c, t. split; [reflexivity|].
  unfold matches_num in H. cbn [startsWith_minus] in H.
  destruct (Ascii.eqb c "-"); [now left|]. right.
  cbn [span_digits] in H. unfold is_digit_or_dot.
  destruct (is_digit c); [reflexivity|].
  destruct (Ascii.eqb c "."); [reflexivity|discriminate].
Qed.

(** *** The sign of what [percent] writes *)

Lemma binary_round_aux_neg s m e l :
  is_neg (binary_round_aux prec emax s m e l) = true -> s = true.
Proof.
  unfold binary_round_aux.
  destruct (shr_fexp prec emax m e l) as [mrs' e'].
  destruct (shr_fexp prec emax _ e' loc_Exact) as [mrs'' e''].
  destruct (shr_m mrs'') as [|p|p]; [tauto| |discriminate].
  now destruct (e'' <=? emax - prec).
Qed.

Lemma of_decimal_not_neg M E : is_neg (of_decimal false M E) = false.
Proof.
  unfold of_decimal. destruct M as [|m|m]; try reflexivity.
  destruct (0 <=? E).
  - unfold binary_round.
    destruct (shl_align _ _ _) as [mz ez].
    destruct (is_neg _) eqn:H; [|reflexivity].
    now apply binary_round_aux_neg in H.
  - unfold SFdiv.
    destruct (SFdiv_core_binary _ _ _ _ _ _) as [[mz ez] lz].
    destruct (is_neg _) eqn:H; [|reflexivity].
    now apply binary_round_aux_neg in H.
Qed.

Lemma parseFloat_not_neg c t :
  is_digit_or_dot c = true -> is_neg (parseFloat (c :: t)) = false.
Proof.
  intros Hc.
  destruct (digit_or_dot_facts c Hc) as (_ & Hsp & Hm & Hp & _).
  unfold parseFloat. cbn [trim_start]. rewrite Hsp.
  unfold parse_sign. rewrite Hm, Hp.
  destruct (starts_with "Infinity" (c :: t)); [reflexivity|].
  destruct (span_digits (c :: t)) as [ip r1].
  destruct (match r1 with
            | [] => ([], r1)
            | c0 :: t0 => if Ascii.eqb c0 "." then span_digits t0 else ([], r1)
            end) as [fp r2].
  destruct (ip ++ fp); [reflexivity|]. apply of_decimal_not_neg.
Qed.

Lemma div_100_neg x : is_neg (div x (of_Z 100)) = true -> is_neg x = true.
Proof.
  change (of_Z 100) with (S754_finite false 7036874417766400 (-46)).
  unfold div, SFdiv. destruct x as [s|s| |s m e]; cbn [is_neg].
  - now destruct s.
  - now destruct s.
  - tauto.
  - destruct (SFdiv_core_binary _ _ _ _ _ _) as [[mz ez] lz].
    intros H. apply binary_round_aux_neg in H. now destruct s.
Qed.

Lemma toResultString_adjacent value :
  adjacent_ops (toResultString value) = false.
Proof.
  destruct value as [v|]; [|reflexivity]. cbn [toResultString].
  destruct (negb (isFinite v)); [reflexivity|].
  set (rounded := div _ _).
  destruct (toString_shape rounded) as (_ & _ & _ & _ & _ & H).
  now destruct (isInteger rounded).
Qed.

(** [percent] keeps the buffer free of adjacent operators. *)
Lemma percent_adjacent uuid st :
  adjacent_ops (expression st) = false ->
  adjacent_ops (expression (handleAction uuid Percent st)) = false.
Proof.
  intros He. unfold handleAction.
  destruct (_ || _); [assumption|].
  destruct (match_trailing (expression st)) as [cur|] eqn:Hmt; [|assumption].
  destruct (match_trailing_Some _ _ Hmt) as (Hcur & pre & Hpre).
  destruct (matches_num_head _ Hcur) as (c & t & -> & Hhead).
  cbn [set_expression expression]. rewrite Hpre in *.
  rewrite slice_off_app by discriminate.
  apply adjacent_ops_split in He as (Hpre_adj & _ & Hj).
  set (x := div (parseFloat (c :: t)) (of_Z 100)).
  destruct (toString_shape x) as (c' & r' & Hs & _ & Hneg & Hadj).
  apply adjacent_ops_join; [assumption|assumption|].
  rewrite Hs. cbn [head_op].
  destruct (is_op_char c') eqn:Hop; [left|now right].
  specialize (Hneg eq_refl). apply div_100_neg in Hneg.
  destruct Hhead as [Hc|Hc].
  - apply Hj. cbn [head_op]. apply Ascii.eqb_eq in Hc. now subst c.
  - rewrite (parseFloat_not_neg c t Hc) in Hneg. discriminate.
Qed.

Lemma In_firstn {A} n (l : list A) x : In x (firstn n l) -> In x l.
Proof.
  intros H. rewrite <- (firstn_skipn n l). apply in_or_app. now left.
Qed.

Lemma step_buffer_inv st ev :
  is_unsigned_event ev = true -> buffer_inv st -> buffer_inv (step st ev).
Proof.
  intros Hev [He Hh]. unfold buffer_inv.
  destruct ev as [newChar|a uuid| |i]; cbn [step].
  - destruct newChar as [|c [|c' t]]; try discriminate.
    cbn [set_expression expression history]. split; [|assumption].
    now apply normalizeInput_adjacent.
  - destruct a; try discriminate.
    + split; [reflexivity|assumption].
    + split; [|assumption]. cbn [handleAction set_expression expression].
      now apply adjacent_ops_slice_off.
    + split; [now apply percent_adjacent|].
      unfold handleAction. destruct (_ || _); [assumption|].
      now destruct (match_trailing _).
    + rewrite handleAction_Equals.
      destruct (equals_ok st).
      * cbn [expression history]. split; [apply toResultString_adjacent|].
        apply Forall_forall. intros en Hen. apply In_firstn in Hen.
        destruct Hen as [<-|Hen]; [apply toResultString_adjacent|].
        rewrite Forall_forall in Hh. now apply Hh.
      * destruct (_ && _); split; try assumption; reflexivity.
    + split; assumption.
  - split; [assumption|constructor].
  - destruct (nth_error (history st) i) as [en|] eqn:Hen;
      [|split; assumption].
    cbn [set_expression expression history]. split; [|assumption].
    rewrite Forall_forall in Hh. apply Hh. eapply nth_error_In, Hen.
Qed.

(** C2, amended: without the [sign] command, every buffer that can be
    reached from the empty one -- by typed characters, [clear], [delete],
    [percent], [equals], the clear-history button and clicks on history
    items -- has no two adjacent operator characters. *)
Theorem no_adjacent_operators_without_sign :
  forall evs : list event,
    forallb is_unsigned_event evs = true ->
    adjacent_ops (expression (run initial evs)) = false.
Proof.
  intros evs Hevs.
  enough (buffer_inv (run initial evs)) as [H _] by exact H.
  assert (buffer_inv initial) as Hinit by (split; [reflexivity|constructor]).
  revert Hevs Hinit. generalize initial.
  induction evs as [|ev evs IH]; intros st Hevs Hst; [assumption|].
  cbn [forallb] in Hevs. apply andb_true_iff in Hevs as [Hev Hevs].
  cbn [run fold_left]. apply IH; [assumption|].
  now apply step_buffer_inv.
Qed.

Lemma no_adjacent_operators_without_sign_witness :
  let evs :=
    keys "5+*-3.5" ++ [Command Percent "id"; Command Equals "a"]
    ++ keys "/-" ++ [Command Delete "id"] ++ keys "-8"
    ++ [Command Equals "b"; HistoryClick 1] in
  expression (run initial evs) = "4.965"
  /\ adjacent_ops (expression (run initial evs)) = false.
Proof.
  intros evs. split.
  - vm_compute. reflexivity.
  - apply (no_adjacent_operators_without_sign evs). vm_compute. reflexivity.
Defined.

(** C2, as stated, fails: typing [5+3] and then [sign] gives the buffer
    ["5+-3"], where [+] and [-] are adjacent. *)
Lemma sign_makes_adjacent_operators :
  expression (run initial (keys "5+3" ++ [Command Sign "id"])) = "5+-3"
  /\ adjacent_ops (expression (run initial (keys "5+3" ++ [Command Sign "id"])))
     = true.
Proof. vm_compute. split; reflexivity. Qed.

(** * Further properties *)

(** ** tokenize as one pass *)

Lemma nth_error_skipn_cons {A} (l : list A) k x :
  nth_error l k = Some x -> skipn k l = x :: skipn (S k) l.
Proof.
  revert l. induction k as [|k IH]; intros [|y l] H; try discriminate.
  - injection H as ->. reflexivity.
  - cbn [nth_error] in H. rewrite !skipn_cons. now apply IH.
Qed.

Lemma tokenize_step_scan raw k c st :
  nth_error raw k = Some c ->
  tokenize_step raw st k
  = scan_step (char_before raw k) c (nth_error raw (S k)) st.
Proof.
  intros Hc. unfold tokenize_step, scan_step, unaryMinus.
  destruct st as [tokens nb]. rewrite Hc.
  replace (Nat.eqb k 0 || has_op (char_before raw k))
    with (first_or_after_op (char_before raw k)); [reflexivity|].
  destruct k as [|j]; [reflexivity|]. cbn [Nat.eqb char_before orb].
  destruct (nth_error raw j) eqn:Hj; [reflexivity|].
  apply nth_error_None in Hj.
  assert (nth_error raw (S j) <> None) as Hk by congruence.
  apply nth_error_Some in Hk. lia.
Qed.

Lemma tokenize_fold_scan raw n :
  forall k st,
    (k + n = length raw)%nat ->
    fold_left (tokenize_step raw) (seq k n) st
    = scan (char_before raw k) (skipn k raw) st.
Proof.
  induction n as [|n IH]; intros k st Hk.
  - rewrite skipn_all2 by lia. reflexivity.
  - destruct (nth_error raw k) as [c|] eqn:Hc;
      [|apply nth_error_None in Hc; lia].
    cbn [seq fold_left].
    rewrite (nth_error_skipn_cons _ _ _ Hc). cbn [scan].
    rewrite IH by lia. cbn [char_before]. rewrite Hc.
    rewrite hd_error_skipn. now rewrite (tokenize_step_scan raw k c st Hc).
Qed.

Lemma tokenize_scan raw :
  tokenize raw = flush (fst (scan None raw ([], [])))
                       (snd (scan None raw ([], []))).
Proof.
  unfold tokenize, tokenize_loop.
  rewrite (tokenize_fold_scan raw (length raw) 0) by reflexivity.
  cbn [char_before skipn]. now destruct (scan None raw ([], [])).
Qed.

(** ** Well-formed expressions *)

Lemma op_not_digit_or_dot o : is_op_char o = true -> is_digit_or_dot o = false.
Proof.
  intros Ho. destruct (is_digit_or_dot o) eqn:H; [|reflexivity].
  destruct (digit_or_dot_facts o H) as (Hop & _). congruence.
Qed.

Lemma last_seen ds :
  forall p,
    ds <> [] ->
    forallb is_digit_or_dot ds = true ->
    exists d, fold_left (fun _ c => Some c) ds p = Some d
              /\ is_digit_or_dot d = true.
Proof.
  induction ds as [|c t IH]; intros p Hne Hall; [contradiction|].
  cbn [forallb] in Hall. apply andb_true_iff in Hall as [Hc Ht].
  destruct t as [|c' t'].
  - exists c. split; [reflexivity|assumption].
  - cbn [fold_left]. apply (IH (Some c)); [discriminate|assumption].
Qed.

Lemma scan_digits ds :
  forallb is_digit_or_dot ds = true ->
  forall prev rest tokens nb,
    scan prev (ds ++ rest) (tokens, nb)
    = scan (fold_left (fun _ c => Some c) ds prev) rest (tokens, nb ++ ds).
Proof.
  induction ds as [|c t IH]; intros Hall prev rest tokens nb.
  - now rewrite app_nil_r.
  - cbn [forallb] in Hall. apply andb_true_iff in Hall as [Hc Ht].
    cbn [app scan fold_left]. unfold scan_step. rewrite Hc. cbn [orb].
    rewrite (IH Ht). now rewrite <- app_assoc.
Qed.

(** Reading one operand where a sign may stand. *)
Lemma scan_number n :
  is_number_token n = true ->
  forall prev rest tokens,
    first_or_after_op prev = true ->
    exists d,
      is_digit_or_dot d = true
      /\ scan prev (n ++ rest) (tokens, []) = scan (Some d) rest (tokens, n).
Proof.
  intros Hn prev rest tokens Hprev.
  unfold is_number_token in Hn.
  destruct n as [|c ds]; [discriminate|]. cbn [startsWith_minus] in Hn.
  destruct (Ascii.eqb c "-") eqn:Hc.
  - apply Ascii.eqb_eq in Hc. subst c. cbn [slice_1 skipn] in Hn.
    apply andb_true_iff in Hn as [Hne Hall].
    destruct ds as [|c' ds']; [discriminate|].
    destruct (last_seen (c' :: ds') (Some "-"%char)) as (d & Hd & Hdd);
      [discriminate|assumption|].
    exists d. split; [assumption|].
    change (("-"%char :: c' :: ds') ++ rest)
      with ("-"%char :: (c' :: ds') ++ rest).
    cbn [scan]. unfold scan_step at 1.
    change (is_digit_or_dot "-") with false.
    change (Ascii.eqb "-" "-") with true. rewrite Hprev.
    cbn [app hd_error test_digit_or_dot].
    pose proof Hall as Hall'. cbn [forallb] in Hall'.
    apply andb_true_iff in Hall' as [-> _]. cbn [orb andb].
    change (c' :: ds' ++ rest) with ((c' :: ds') ++ rest).
    rewrite (scan_digits (c' :: ds') Hall). now rewrite Hd.
  - apply andb_true_iff in Hn as [_ Hall].
    destruct (last_seen (c :: ds) prev) as (d & Hd & Hdd);
      [discriminate|assumption|].
    exists d. split; [assumption|].
    rewrite (scan_digits (c :: ds) Hall). now rewrite Hd.
Qed.

Lemma scan_operands rest :
  forall tokens nb d,
    is_digit_or_dot d = true ->
    nonempty nb = true ->
    forallb (fun p => is_op_char (fst p) && is_number_token (snd p)) rest
    = true ->
    let st := scan (Some d) (flat_map (fun p => fst p :: snd p) rest)
                   (tokens, nb) in
    flush (fst st) (snd st)
    = tokens ++ nb :: flat_map (fun p => [[fst p]; snd p]) rest.
Proof.
  induction rest as [|[o n] rest IH]; intros tokens nb d Hd Hnb Hrest.
  - cbn. unfold flush. now rewrite Hnb.
  - cbn [forallb fst snd] in Hrest.
    apply andb_true_iff in Hrest as [Hon Hrest].
    apply andb_true_iff in Hon as [Ho Hn].
    cbn [flat_map fst snd]. cbv zeta.
    set (F := flat_map (fun p => fst p :: snd p) rest).
    assert (nonempty n = true) as Hne
        by (destruct n; [discriminate Hn|reflexivity]).
    assert (exists d', is_digit_or_dot d' = true
                       /\ scan (Some d) ((o :: n) ++ F) (tokens, nb)
                          = scan (Some d') F ((tokens ++ [nb]) ++ [[o]], n))
      as (d' & Hd' & ->).
    { change ((o :: n) ++ F) with (o :: n ++ F).
      cbn [scan]. unfold scan_step.
      rewrite (op_not_digit_or_dot o Ho). cbn [first_or_after_op].
      destruct (digit_or_dot_facts d Hd) as (-> & _).
      rewrite andb_false_r. cbn [orb andb]. rewrite Ho.
      unfold flush. rewrite Hnb.
      destruct (scan_number n Hn (Some o) F ((tokens ++ [nb]) ++ [[o]]) Ho)
        as (d' & Hd' & Heq).
      exists d'. split; assumption. }
    cbv zeta in IH. unfold F. rewrite (IH _ n d' Hd' Hne Hrest).
    rewrite <- !app_assoc. reflexivity.
Qed.

(** X1: an expression written as a first operand followed by operators
    with their operands, every operand being a number token (digits and
    decimal points, with an optional minus sign in front), is split by
    [tokenize] into exactly these operands and operators, in order. *)
Theorem tokenize_well_formed :
  forall (n0 : str) (rest : list (ascii * str)),
    well_formed n0 rest = true ->
    tokenize (unparse n0 rest) = tokens_of n0 rest.
Proof.
  intros n0 rest Hwf. unfold well_formed in Hwf.
  apply andb_true_iff in Hwf as [Hn0 Hrest].
  rewrite tokenize_scan. unfold unparse, tokens_of.
  destruct (scan_number n0 Hn0 None
              (flat_map (fun p => fst p :: snd p) rest) [] eq_refl)
    as (d & Hd & ->).
  assert (nonempty n0 = true) as Hne
      by (destruct n0; [discriminate Hn0|reflexivity]).
  apply (scan_operands rest [] n0 d Hd Hne Hrest).
Qed.

Lemma tokenize_well_formed_witness :
  tokenize "-2.5*-4-3/.5"
  = ["-2.5"; "*"; "-4"; "-"; "3"; "/"; ".5"].
Proof.
  apply (tokenize_well_formed "-2.5"
           [("*"%char, "-4"); ("-"%char, "3"); ("/"%char, ".5")]).
  vm_compute. reflexivity.
Defined.

(** ** The pipeline against the usual reading of an expression *)

Lemma str_eqb_single o c : str_eqb [o] [c] = Ascii.eqb o c.
Proof.
  destruct (Ascii.eqb_spec o c) as [->|Hc].
  - now apply str_eqb_eq.
  - apply str_eqb_neq. intros H. injection H as H. contradiction.
Qed.

Lemma op_char_cases o :
  is_op_char o = true ->
  o = "+"%char \/ o = "-"%char \/ o = "*"%char \/ o = "/"%char.
Proof.
  unfold is_op_char, operators. cbn [existsb]. intros H.
  repeat (apply orb_true_iff in H as [H|H];
          [apply Ascii.eqb_eq in H; tauto|]).
  discriminate.
Qed.

Lemma additive_cases a :
  is_additive a = true -> a = "+"%char \/ a = "-"%char.
Proof.
  unfold is_additive. intros H.
  apply orb_true_iff in H as [H|H]; apply Ascii.eqb_eq in H; tauto.
Qed.

Lemma multiplicative_cases m :
  is_multiplicative m = true -> m = "*"%char \/ m = "/"%char.
Proof.
  unfold is_multiplicative. intros H.
  apply orb_true_iff in H as [H|H]; apply Ascii.eqb_eq in H; tauto.
Qed.

Lemma evalPostfix_step_op o a b vs :
  is_op_char o = true ->
  evalPostfix_step (b :: a :: vs) [o] = apply_op o a b :: vs.
Proof.
  intros Ho. unfold evalPostfix_step, apply_op. cbn [is_operator].
  rewrite Ho. cbn [negb pop opt_isNaN].
  destruct (isNaN a || isNaN b); [reflexivity|].
  rewrite !str_eqb_single.
  repeat match goal with
         | |- context [Ascii.eqb o ?c] => destruct (Ascii.eqb o c)
         end; reflexivity.
Qed.

Lemma evalPostfix_step_number n vs :
  is_number_token n = true -> evalPostfix_step vs n = parseFloat n :: vs.
Proof.
  intros Hn. unfold evalPostfix_step.
  now destruct (number_token_facts n Hn) as (-> & _).
Qed.

Lemma toPostfix_step_number n output stack :
  is_number_token n = true ->
  toPostfix_step (output, stack) n = (output ++ [n], stack).
Proof.
  intros Hn. unfold toPostfix_step.
  now destruct (number_token_facts n Hn) as (-> & _).
Qed.

(** One operator and its operand, on stacks that match a state of
    [eval_ref]. *)
Lemma shunting_step vs stack pending term o n output :
  stacks_match vs stack pending term ->
  is_op_char o = true ->
  is_number_token n = true ->
  fold_left evalPostfix_step output [] = vs ->
  exists output' stack' vs',
    toPostfix_step (toPostfix_step (output, stack) [o]) n = (output', stack')
    /\ fold_left evalPostfix_step output' [] = vs'
    /\ stacks_match vs' stack'
         (if is_multiplicative o then pending
          else Some (close_term pending term, o))
         (if is_multiplicative o then apply_op o term (parseFloat n)
          else parseFloat n).
Proof.
  intros Hm Ho Hn Hout.
  assert (forall l, fold_left evalPostfix_step (output ++ l) []
                    = fold_left evalPostfix_step l vs) as Hfold
      by (intros l; now rewrite fold_left_app, Hout).
  clear Hout.
  destruct (op_char_cases o Ho) as [->|[->|[->| ->]]];
    inversion Hm as [t|a s t Ha|m t u Hmul|m a t u s Hmul Ha]; subst;
    try (destruct (additive_cases a Ha) as [->| ->]);
    try (destruct (multiplicative_cases m Hmul) as [->| ->]);
    unfold toPostfix_step at 2; cbn [is_operator];
    change (is_op_char "+") with true; change (is_op_char "-") with true;
    change (is_op_char "*") with true; change (is_op_char "/") with true;
    cbn [negb]; cbv iota; rewrite pop_while_spec;
    match goal with
    | |- context [spec_popped ?tok ?stk] =>
        let p := eval vm_compute in (spec_popped tok stk) in
        let k := eval vm_compute in (spec_kept tok stk) in
        change (spec_popped tok stk) with p;
        change (spec_kept tok stk) with k
    end;
    rewrite (toPostfix_step_number n _ _ Hn);
    do 3 eexists; (split; [reflexivity|]);
    rewrite <- app_assoc, Hfold; cbn [app fold_left];
    rewrite ?evalPostfix_step_op by reflexivity;
    rewrite (evalPostfix_step_number n _ Hn);
    (split; [reflexivity|]);
    cbn [is_multiplicative close_term];
    change (Ascii.eqb "+" "*" || Ascii.eqb "+" "/") with false;
    change (Ascii.eqb "-" "*" || Ascii.eqb "-" "/") with false;
    change (Ascii.eqb "*" "*" || Ascii.eqb "*" "/") with true;
    change (Ascii.eqb "/" "*" || Ascii.eqb "/" "/") with true;
    cbv iota; constructor; reflexivity.
Qed.

Lemma shunting_run rest :
  forall output stack vs pending term,
    fold_left evalPostfix_step output [] = vs ->
    stacks_match vs stack pending term ->
    forallb (fun p => is_op_char (fst p) && is_number_token (snd p)) rest
    = true ->
    forall output' stack',
      fold_left toPostfix_step
        (flat_map (fun p => [[fst p]; snd p]) rest) (output, stack)
      = (output', stack') ->
      bottom (fold_left evalPostfix_step (output' ++ stack') [])
      = Some (eval_ref pending term (operand_values rest)).
Proof.
  induction rest as [|[o n] rest IH];
    intros output stack vs pending term Hout Hm Hrest output' stack' Hrun.
  - cbn in Hrun. injection Hrun as <- <-.
    rewrite fold_left_app, Hout. cbn [operand_values map eval_ref].
    inversion Hm as [t|a s t Ha|m t u Hmul|m a t u s Hmul Ha]; subst;
      try (destruct (additive_cases a Ha) as [->| ->]);
      try (destruct (multiplicative_cases m Hmul) as [->| ->]);
      cbn [fold_left];
      rewrite ?evalPostfix_step_op by reflexivity; reflexivity.
  - cbn [forallb fst snd] in Hrest.
    apply andb_true_iff in Hrest as [Hon Hrest].
    apply andb_true_iff in Hon as [Ho Hn].
    cbn [flat_map fst snd app fold_left] in Hrun.
    destruct (shunting_step vs stack pending term o n output Hm Ho Hn Hout)
      as (output1 & stack1 & vs1 & Hstep & Hout1 & Hm1).
    rewrite Hstep in Hrun.
    cbn [operand_values map fst snd eval_ref].
    destruct (is_multiplicative o);
      apply (IH _ _ _ _ _ Hout1 Hm1 Hrest _ _ Hrun).
Qed.

(** X2: on such a well-formed expression the whole pipeline
    ([tokenize], [toPostfix], [evalPostfix]) returns what the usual reading
    gives: [*] and [/] before [+] and [-], equal levels from left to
    right, operands read by [parseFloat], not-a-number and division by
    zero passed on as not-a-number. *)
Theorem evaluate_well_formed :
  forall (n0 : str) (rest : list (ascii * str)),
    well_formed n0 rest = true ->
    evaluateExpression (unparse n0 rest)
    = Some (eval_ref None (parseFloat n0) (operand_values rest)).
Proof.
  intros n0 rest Hwf. unfold evaluateExpression.
  rewrite (tokenize_well_formed n0 rest Hwf).
  unfold well_formed in Hwf. apply andb_true_iff in Hwf as [Hn0 Hrest].
  unfold tokens_of. cbn [length Nat.eqb]. unfold evalPostfix, toPostfix.
  cbn [fold_left]. rewrite (toPostfix_step_number n0 [] [] Hn0).
  cbn [app].
  destruct (fold_left toPostfix_step _ ([n0], [])) as [output' stack']
    eqn:Hrun.
  apply (shunting_run rest [n0] [] [parseFloat n0] None (parseFloat n0));
    try assumption.
  - cbn [fold_left]. apply (evalPostfix_step_number n0 [] Hn0).
  - constructor.
Qed.

Lemma evaluate_well_formed_witness :
  evaluateExpression "-2.5*-4-3/.5"
  = Some (sub (mul (parseFloat "-2.5") (parseFloat "-4"))
              (div (parseFloat "3") (parseFloat ".5"))).
Proof.
  refine (eq_trans
            (evaluate_well_formed "-2.5"
               [("*"%char, "-4"); ("-"%char, "3"); ("/"%char, ".5")] _) _).
  - vm_compute. reflexivity.
  - vm_compute. reflexivity.
Defined.

(** ** evaluateExpression on any input *)

Lemma evalPostfix_step_nonempty stack token :
  evalPostfix_step stack token <> [].
Proof.
  unfold evalPostfix_step.
  destruct (negb (is_operator token)); [discriminate|].
  destruct (pop stack) as [b stack1]. destruct (pop stack1) as [a stack2].
  repeat match goal with
         | |- context [if ?c then _ else _] => destruct c
         end; discriminate.
Qed.

Lemma bottom_nonempty stack : stack <> [] -> exists v, bottom stack = Some v.
Proof.
  intros H. unfold bottom. destruct (rev stack) as [|x r] eqn:Hr.
  - apply (f_equal (@rev number)) in Hr. rewrite rev_involutive in Hr.
    contradiction.
  - now exists x.
Qed.

Lemma evalPostfix_defined postfix :
  postfix <> [] -> exists v, evalPostfix postfix = Some v.
Proof.
  intros H. unfold evalPostfix.
  induction postfix as [|t l _] using rev_ind; [contradiction|].
  rewrite fold_left_app. cbn [fold_left].
  apply bottom_nonempty, evalPostfix_step_nonempty.
Qed.

(** X3: [evaluateExpression] returns a number on every input string (it
    may be not-a-number): the value stack is never empty at the end, so
    [stack[0]] is never [undefined]. *)
Theorem evaluateExpression_defined :
  forall raw : str, exists v : number, evaluateExpression raw = Some v.
Proof.
  intros raw. unfold evaluateExpression.
  destruct (tokenize raw) as [|t l] eqn:Ht.
  - now exists (of_Z 0).
  - cbn [length Nat.eqb]. apply evalPostfix_defined.
    intros H. pose proof (Permutation_length (toPostfix_perm (t :: l))) as Hl.
    rewrite H in Hl. discriminate.
Qed.

(** ** Characters that tokenize skips *)

Lemma scan_step_skip prev c next st :
  is_digit_or_dot c || is_op_char c = false -> scan_step prev c next st = st.
Proof.
  intros H. apply orb_false_iff in H as [Hd Ho].
  unfold scan_step. destruct st as [tokens nb]. rewrite Hd, Ho.
  destruct (Ascii.eqb_spec c "-") as [->|_]; [discriminate Ho|reflexivity].
Qed.

Lemma scan_step_started prev c next st :
  (is_digit_or_dot c || is_op_char c = true
   \/ fst st <> [] \/ snd st <> []) ->
  fst (scan_step prev c next st) <> []
  \/ snd (scan_step prev c next st) <> [].
Proof.
  intros H. unfold scan_step. destruct st as [tokens nb].
  destruct (is_digit_or_dot c
            || Ascii.eqb c "-" && first_or_after_op prev
               && test_digit_or_dot next) eqn:Happend.
  - right. cbn [snd]. intros E. now apply app_eq_nil in E as [_ E].
  - apply orb_false_iff in Happend as [Hd _]. rewrite Hd in H.
    destruct (is_op_char c).
    + left. cbn [fst]. intros E. now apply app_eq_nil in E as [_ E].
    + destruct H as [H|H]; [discriminate H|exact H].
Qed.

Lemma scan_started rest :
  forall prev st,
    (existsb (fun c => is_digit_or_dot c || is_op_char c) rest = true
     \/ fst st <> [] \/ snd st <> []) ->
    fst (scan prev rest st) <> [] \/ snd (scan prev rest st) <> [].
Proof.
  induction rest as [|c t IH]; intros prev st H.
  - destruct H as [H|H]; [discriminate H|exact H].
  - cbn [scan]. apply IH.
    cbn [existsb] in H.
    destruct (existsb _ t); [now left|right].
    rewrite orb_false_r in H. now apply scan_step_started.
Qed.

Lemma scan_skipped rest :
  forall prev st,
    existsb (fun c => is_digit_or_dot c || is_op_char c) rest = false ->
    scan prev rest st = st.
Proof.
  induction rest as [|c t IH]; intros prev st H; [reflexivity|].
  cbn [existsb] in H. apply orb_false_iff in H as [Hc Ht].
  cbn [scan]. rewrite (scan_step_skip _ _ _ _ Hc). now apply IH.
Qed.

(** X4: [tokenize] returns no token exactly when the input has no digit,
    no decimal point and no operator character; [evaluateExpression] is
    then 0, whatever else the string holds. *)
Theorem tokenize_empty_iff :
  forall raw : str,
    (tokenize raw = []
     <-> existsb (fun c => is_digit_or_dot c || is_op_char c) raw = false)
    /\ (existsb (fun c => is_digit_or_dot c || is_op_char c) raw = false ->
        evaluateExpression raw = Some (of_Z 0)).
Proof.
  intros raw.
  assert (tokenize raw = []
          <-> existsb (fun c => is_digit_or_dot c || is_op_char c) raw
              = false) as Hiff.
  { rewrite tokenize_scan. split.
    - intros Hnil.
      destruct (existsb _ raw) eqn:Hex; [exfalso|reflexivity].
      destruct (scan_started raw None ([], [])) as [H|H]; [now left| |];
        destruct (scan None raw ([], [])) as [tokens nb];
        cbn [fst snd] in *; unfold flush in Hnil.
      + destruct (nonempty nb); [|contradiction].
        now apply app_eq_nil in Hnil as [_ Hnil].
      + destruct nb; [contradiction|]. cbn [nonempty] in Hnil.
        now apply app_eq_nil in Hnil as [_ Hnil].
    - intros Hex. now rewrite (scan_skipped raw None ([], []) Hex). }
  split; [exact Hiff|].
  intros Hex. unfold evaluateExpression.
  now rewrite (proj2 Hiff Hex).
Qed.

Lemma tokenize_empty_iff_witness :
  evaluateExpression "Infinity" = Some (of_Z 0).
Proof.
  apply (proj2 (tokenize_empty_iff "Infinity")). reflexivity.
Defined.

(** ** More on toPostfix *)

Lemma spec_popped_operators token stack :
  forallb is_operator stack = true ->
  forallb is_operator (spec_popped token stack) = true
  /\ forallb is_operator (spec_kept token stack) = true.
Proof.
  induction stack as [|top rest IH]; intros H; [now split|].
  cbn [forallb] in H. apply andb_true_iff in H as [Htop Hrest].
  destruct (IH Hrest) as [Hp Hk]. cbn [spec_popped spec_kept].
  destruct (js_ge _ _); cbn [forallb]; rewrite ?Htop, ?Hp, ?Hrest;
    now split.
Qed.

Lemma filter_operands_of_operators l :
  forallb is_operator l = true ->
  filter (fun t => negb (is_operator t)) l = [].
Proof.
  induction l as [|t l IH]; intros H; [reflexivity|].
  cbn [forallb] in H. apply andb_true_iff in H as [Ht Hl].
  cbn [filter]. rewrite Ht. cbn [negb]. now apply IH.
Qed.

Lemma toPostfix_fold_operands tokens :
  forall output stack,
    forallb is_operator stack = true ->
    forallb is_operator (snd (fold_left toPostfix_step tokens (output, stack)))
    = true
    /\ filter (fun t => negb (is_operator t))
              (fst (fold_left toPostfix_step tokens (output, stack)))
       = filter (fun t => negb (is_operator t)) output
         ++ filter (fun t => negb (is_operator t)) tokens.
Proof.
  induction tokens as [|t ts IH]; intros output stack Hstack.
  - cbn. now rewrite app_nil_r.
  - cbn [fold_left]. unfold toPostfix_step at 2 4.
    destruct (is_operator t) eqn:Ht; cbn [negb].
    + rewrite pop_while_spec.
      destruct (spec_popped_operators t stack Hstack) as [Hp Hk].
      destruct (IH (output ++ spec_popped t stack) (t :: spec_kept t stack))
        as [H1 H2].
      { cbn [forallb]. now rewrite Ht, Hk. }
      split; [exact H1|]. rewrite H2, filter_app.
      rewrite (filter_operands_of_operators _ Hp), app_nil_r.
      cbn [filter]. now rewrite Ht.
    + destruct (IH (output ++ [t]) stack Hstack) as [H1 H2].
      split; [exact H1|]. rewrite H2, filter_app. cbn [filter].
      rewrite Ht. cbn [negb]. now rewrite <- app_assoc.
Qed.

(** X5: [toPostfix] keeps the operands in their order: the number tokens
    of its output are those of its input, in the same sequence. *)
Theorem toPostfix_keeps_operand_order :
  forall tokens : list str,
    filter (fun t => negb (is_operator t)) (toPostfix tokens)
    = filter (fun t => negb (is_operator t)) tokens.
Proof.
  intros tokens. unfold toPostfix.
  destruct (toPostfix_fold_operands tokens [] [] eq_refl) as [Hs Ho].
  destruct (fold_left toPostfix_step tokens ([], [])) as [output stack].
  cbn [fst snd] in *.
  now rewrite filter_app, Ho, (filter_operands_of_operators _ Hs), app_nil_r.
Qed.

Lemma operator_cases t :
  is_operator t = true -> t = "+" \/ t = "-" \/ t = "*" \/ t = "/".
Proof.
  destruct t as [|c [|c' t']]; try discriminate. cbn [is_operator].
  intros H. destruct (op_char_cases c H) as [->|[->|[->| ->]]]; tauto.
Qed.

Lemma precedence_cases t :
  (precedence t = Some 1%nat -> t = "+" \/ t = "-")
  /\ (precedence t = Some 2%nat -> t = "*" \/ t = "/").
Proof.
  unfold precedence.
  destruct (str_eqb t "+") eqn:H1;
    [apply str_eqb_eq in H1; split; [tauto|discriminate]|].
  destruct (str_eqb t "-") eqn:H2;
    [apply str_eqb_eq in H2; split; [tauto|discriminate]|].
  destruct (str_eqb t "*") eqn:H3;
    [apply str_eqb_eq in H3; split; [discriminate|tauto]|].
  destruct (str_eqb t "/") eqn:H4;
    [apply str_eqb_eq in H4; split; [discriminate|tauto]|].
  split; discriminate.
Qed.

Lemma toPostfix_step_shape output stack token :
  stack_shape stack ->
  stack_shape (snd (toPostfix_step (output, stack) token)).
Proof.
  intros Hs. unfold toPostfix_step.
  destruct (is_operator token) eqn:Ht; cbn [negb]; [|exact Hs].
  rewrite pop_while_spec. cbn [snd].
  destruct (operator_cases token Ht) as [->|[->|[->| ->]]];
    destruct Hs as [->|[(o & -> & Ho)|(m & a & -> & Hm & Ha)]];
    try (destruct (operator_cases o Ho) as [->|[->|[->| ->]]]);
    try (destruct (proj2 (precedence_cases m) Hm) as [->| ->];
         destruct (proj1 (precedence_cases a) Ha) as [->| ->]);
    match goal with
    | |- context [spec_kept ?tok ?stk] =>
        let k := eval vm_compute in (spec_kept tok stk) in
        change (spec_kept tok stk) with k
    end;
    solve [ right; left; eexists; split; reflexivity
          | right; right; do 2 eexists; repeat split; reflexivity ].
Qed.

Lemma toPostfix_fold_shape tokens :
  forall output stack,
    stack_shape stack ->
    stack_shape (snd (fold_left toPostfix_step tokens (output, stack))).
Proof.
  induction tokens as [|t ts IH]; intros output stack Hs; [exact Hs|].
  cbn [fold_left].
  pose proof (toPostfix_step_shape output stack t Hs) as Hs'.
  destruct (toPostfix_step (output, stack) t) as [output' stack'].
  now apply IH.
Qed.

(** X6: while [toPostfix] works, its operator stack never holds more than
    two operators, and when it holds two, the top one is [*] or [/] and
    the one below is [+] or [-]. *)
Theorem toPostfix_stack_depth :
  forall tokens : list str,
    let stack := snd (fold_left toPostfix_step tokens ([], [])) in
    (length stack <= 2)%nat
    /\ forall m a, stack = [m; a] ->
                   (m = "*" \/ m = "/") /\ (a = "+" \/ a = "-").
Proof.
  intros tokens stack.
  assert (stack_shape stack) as Hs
      by (apply toPostfix_fold_shape; now left).
  destruct Hs as [->|[(o & -> & Ho)|(m & a & -> & Hm & Ha)]].
  - split; [cbn; lia|discriminate].
  - split; [cbn; lia|discriminate].
  - split; [cbn; lia|].
    intros m' a' E. injection E as <- <-.
    split; now apply precedence_cases.
Qed.

Lemma toPostfix_stack_depth_witness :
  snd (fold_left toPostfix_step ["2"; "+"; "3"; "*"] ([], [])) = ["*"; "+"]
  /\ ("*" = "*" \/ "*" = "/") /\ ("+" = "+" \/ "+" = "-").
Proof.
  split; [reflexivity|].
  apply (proj2 (toPostfix_stack_depth ["2"; "+"; "3"; "*"]) "*" "+").
  reflexivity.
Defined.

(** ** The trailing number of the buffer *)

Lemma span_digits_spec s :
  s = fst (span_digits s) ++ snd (span_digits s)
  /\ forallb is_digit (fst (span_digits s)) = true.
Proof.
  induction s as [|c t [IH1 IH2]]; [now split|].
  cbn [span_digits]. destruct (is_digit c) eqn:Hc; [|now split].
  destruct (span_digits t) as [d r]. cbn [fst snd] in *.
  split; [now rewrite IH1 at 1|]. cbn [forallb]. now rewrite Hc, IH2.
Qed.

Lemma digits_last d :
  nonempty d = true ->
  forallb is_digit d = true ->
  exists d' x, d = d' ++ [x] /\ is_digit x = true.
Proof.
  intros Hne Hall.
  induction d as [|c t _] using rev_ind; [discriminate|].
  rewrite forallb_app in Hall. apply andb_true_iff in Hall as [_ Hc].
  cbn [forallb] in Hc. rewrite andb_true_r in Hc. now exists t, c.
Qed.

Lemma digits_allowed d :
  forallb is_digit d = true ->
  forallb (fun c => is_digit_or_dot c || Ascii.eqb c "-") d = true.
Proof.
  induction d as [|c t IH]; [reflexivity|]. cbn [forallb].
  intros H. apply andb_true_iff in H as [Hc Ht].
  rewrite (IH Ht). unfold is_digit_or_dot. now rewrite Hc.
Qed.

Lemma startsWith_minus_true s :
  startsWith_minus s = true -> s = "-"%char :: slice_1 s.
Proof.
  destruct s as [|c t]; [discriminate|]. cbn [startsWith_minus].
  intros H. apply Ascii.eqb_eq in H. now subst c.
Qed.

(** What a match of [-?\d*\.?\d+] looks like: it ends in a digit, and it
    is made of digits, decimal points and minus signs only. *)
Lemma matches_num_shape s :
  matches_num s = true ->
  (exists p d, s = p ++ [d] /\ is_digit d = true)
  /\ forallb (fun c => is_digit_or_dot c || Ascii.eqb c "-") s = true.
Proof.
  unfold matches_num.
  set (r := if startsWith_minus s then slice_1 s else s).
  assert (exists sg, s = sg ++ r
                     /\ forallb (fun c => is_digit_or_dot c
                                          || Ascii.eqb c "-") sg = true)
    as (sg & Hs & Hsg).
  { subst r. destruct (startsWith_minus s) eqn:Hm.
    - exists "-". split; [now apply startsWith_minus_true|reflexivity].
    - now exists []. }
  destruct (span_digits_spec r) as [Hr Hd1].
  destruct (span_digits r) as [d1 r1]. cbn [fst snd] in *.
  destruct r1 as [|c t].
  - intros Hne. rewrite app_nil_r in Hr.
    destruct (digits_last d1 Hne Hd1) as (d' & x & Hd' & Hx).
    split.
    + exists (sg ++ d'), x. split; [|assumption].
      now rewrite Hs, Hr, Hd', app_assoc.
    + rewrite Hs, Hr, forallb_app, Hsg. now apply digits_allowed.
  - destruct (Ascii.eqb c ".") eqn:Hc; [|discriminate].
    apply Ascii.eqb_eq in Hc. subst c.
    destruct (span_digits_spec t) as [Ht Hd2].
    destruct (span_digits t) as [d2 r2]. cbn [fst snd] in *.
    intros H. apply andb_true_iff in H as [Hne Hr2].
    destruct r2; [|discriminate]. rewrite app_nil_r in Ht.
    destruct (digits_last d2 Hne Hd2) as (d' & x & Hd' & Hx).
    split.
    + exists (sg ++ d1 ++ "." ++ d'), x. split; [|assumption].
      rewrite Hs, Hr, Ht, Hd'. now rewrite <- !app_assoc.
    + rewrite Hs, Hr, Ht, !forallb_app, Hsg.
      rewrite (digits_allowed d1 Hd1). cbn [forallb andb orb].
      change (is_digit_or_dot ".") with true. cbn [orb andb].
      now apply digits_allowed.
Qed.

Lemma match_trailing_unfold s :
  match_trailing s
  = if matches_num s then Some s
    else match s with
         | [] => None
         | _ :: t => match_trailing t
         end.
Proof. now destruct s. Qed.

Lemma match_trailing_exists a b :
  matches_num b = true -> exists cur, match_trailing (a ++ b) = Some cur.
Proof.
  intros Hb. induction a as [|c a IH].
  - exists b. rewrite match_trailing_unfold. cbn [app]. now rewrite Hb.
  - rewrite match_trailing_unfold.
    destruct (matches_num ((c :: a) ++ b)); [eauto|exact IH].
Qed.

Lemma matches_num_digit d : is_digit d = true -> matches_num [d] = true.
Proof.
  intros Hd. unfold matches_num. cbn [startsWith_minus].
  destruct (digit_or_dot_facts d) as (_ & _ & -> & _).
  { unfold is_digit_or_dot. now rewrite Hd. }
  cbn [span_digits]. now rewrite Hd.
Qed.

Lemma ends_in_digit_snoc e d : ends_in_digit (e ++ [d]) = is_digit d.
Proof. unfold ends_in_digit. now rewrite at_last_snoc. Qed.

Lemma match_trailing_None e :
  ends_in_digit e = false -> match_trailing e = None.
Proof.
  intros He. destruct (match_trailing e) as [cur|] eqn:Hm; [|reflexivity].
  destruct (match_trailing_Some _ _ Hm) as (Hcur & pre & Hpre).
  destruct (matches_num_shape cur Hcur) as ((p & d & Hp & Hd) & _).
  rewrite Hpre, Hp, app_assoc, ends_in_digit_snoc in He. congruence.
Qed.

Lemma match_trailing_digit e :
  ends_in_digit e = true ->
  exists pre cur,
    match_trailing e = Some cur /\ e = pre ++ cur /\ matches_num cur = true.
Proof.
  intros He. unfold ends_in_digit in He.
  destruct (at_last e) as [d|] eqn:Hl; [|discriminate].
  destruct (at_last_Some _ _ Hl) as (p & ->).
  destruct (match_trailing_exists p [d] (matches_num_digit d He))
    as (cur & Hm).
  destruct (match_trailing_Some _ _ Hm) as (Hcur & pre & Hpre).
  now exists pre, cur.
Qed.

(** X7: [percent] and the segment branch of [sign] act exactly when the
    buffer ends in a digit.  Otherwise [percent] changes nothing and
    [sign] toggles a minus in front of the whole buffer; when it does end
    in a digit, both rewrite a suffix of the buffer that matches the
    number pattern and leave what is before it. *)
Theorem trailing_number_iff_digit :
  forall (uuid : str) (st : state),
    (ends_in_digit (expression st) = false ->
     handleAction uuid Percent st = st
     /\ handleAction uuid Sign st
        = set_expression st
            (if startsWith_minus (expression st)
             then slice_1 (expression st) else "-" ++ expression st))
    /\ (ends_in_digit (expression st) = true ->
        exists pre cur,
          expression st = pre ++ cur
          /\ matches_num cur = true
          /\ handleAction uuid Percent st
             = set_expression st
                 (pre ++ toString (div (parseFloat cur) (of_Z 100)))
          /\ handleAction uuid Sign st
             = set_expression st
                 (pre ++ (if startsWith_minus cur then slice_1 cur
                          else "-" ++ cur))).
Proof.
  intros uuid st. split.
  - intros He. unfold handleAction.
    rewrite (match_trailing_None _ He). split; [|reflexivity].
    now destruct (_ || _).
  - intros He.
    destruct (match_trailing_digit _ He) as (pre & cur & Hm & Hpre & Hcur).
    exists pre, cur. split; [assumption|]. split; [assumption|].
    assert (cur <> []) as Hne by (intros ->; discriminate Hcur).
    unfold handleAction. rewrite Hm.
    assert (negb (nonempty (expression st))
            || ends_in_operator (expression st) = false) as ->.
    { unfold ends_in_digit, ends_in_operator in *.
      destruct (expression st) as [|c t]; [discriminate He|].
      cbn [nonempty negb orb].
      destruct (at_last (c :: t)) as [d|]; [|discriminate He].
      cbn [has_op]. now apply digit_not_op. }
    rewrite Hpre, (slice_off_app pre cur Hne). split; reflexivity.
Qed.

Lemma trailing_number_iff_digit_witness :
  handleAction "id" Percent {| expression := "5+."; history := [] |}
  = {| expression := "5+."; history := [] |}
  /\ exists pre cur,
       "12*-.5" = pre ++ cur
       /\ matches_num cur = true
       /\ handleAction "id" Percent {| expression := "12*-.5"; history := [] |}
          = set_expression {| expression := "12*-.5"; history := [] |}
              (pre ++ toString (div (parseFloat cur) (of_Z 100)))
       /\ handleAction "id" Sign {| expression := "12*-.5"; history := [] |}
          = set_expression {| expression := "12*-.5"; history := [] |}
              (pre ++ (if startsWith_minus cur then slice_1 cur
                       else "-" ++ cur)).
Proof.
  split.
  - apply (proj1 (trailing_number_iff_digit "id"
                    {| expression := "5+."; history := [] |})).
    reflexivity.
  - apply (proj2 (trailing_number_iff_digit "id"
                    {| expression := "12*-.5"; history := [] |})).
    reflexivity.
Defined.

(** ** When sign is undone by sign *)

Lemma matches_num_blocked p o x :
  is_op_char o = true ->
  Ascii.eqb o "-" = false ->
  matches_num (p ++ o :: x) = false.
Proof.
  intros Ho Hm. destruct (matches_num (p ++ o :: x)) eqn:H; [|reflexivity].
  destruct (matches_num_shape _ H) as (_ & Hall).
  rewrite forallb_forall in Hall.
  specialize (Hall o (in_elt o p x)).
  now rewrite (op_not_digit_or_dot o Ho), Hm in Hall.
Qed.

Lemma match_trailing_after p o x :
  is_op_char o = true ->
  Ascii.eqb o "-" = false ->
  matches_num x = true ->
  match_trailing (p ++ o :: x) = Some x.
Proof.
  intros Ho Hm Hx. induction p as [|c p IH].
  - rewrite match_trailing_unfold.
    rewrite (matches_num_blocked [] o x Ho Hm). cbn [app].
    rewrite match_trailing_unfold. now rewrite Hx.
  - rewrite match_trailing_unfold.
    now rewrite (matches_num_blocked (c :: p) o x Ho Hm).
Qed.

Lemma match_trailing_pre pre x :
  after_blocker pre = true ->
  matches_num x = true ->
  match_trailing (pre ++ x) = Some x.
Proof.
  intros Hpre Hx. unfold after_blocker in Hpre.
  destruct (at_last pre) as [o|] eqn:Hl.
  - destruct (at_last_Some _ _ Hl) as (p & ->).
    apply andb_true_iff in Hpre as [Ho Hm]. apply negb_true_iff in Hm.
    rewrite <- app_assoc. now apply match_trailing_after.
  - destruct pre as [|c t].
    + rewrite match_trailing_unfold. cbn [app]. now rewrite Hx.
    + rewrite at_last_last in Hl. discriminate.
Qed.

Lemma matches_num_minus x :
  matches_num ("-"%char :: x) = true ->
  startsWith_minus x = false /\ matches_num x = true.
Proof.
  unfold matches_num. cbn [startsWith_minus].
  change (Ascii.eqb "-" "-") with true. cbn [slice_1 skipn].
  destruct x as [|c t]; [discriminate|]. cbn [startsWith_minus].
  destruct (Ascii.eqb c "-") eqn:Hc; [|tauto].
  apply Ascii.eqb_eq in Hc. subst c. discriminate.
Qed.

Lemma matches_num_add_minus x :
  startsWith_minus x = false ->
  matches_num x = true ->
  matches_num ("-"%char :: x) = true.
Proof.
  unfold matches_num. intros ->. cbn [startsWith_minus].
  now change (Ascii.eqb "-" "-") with true.
Qed.

(** X8: where the trailing number starts the buffer or follows [+], [*]
    or [/], the [sign] command applied twice gives the state back. *)
Theorem sign_twice_after_operator :
  forall (uuid1 uuid2 : str) (st : state) (pre cur : str),
    expression st = pre ++ cur ->
    after_blocker pre = true ->
    matches_num cur = true ->
    handleAction uuid2 Sign (handleAction uuid1 Sign st) = st.
Proof.
  intros uuid1 uuid2 [e h] pre cur He Hpre Hcur. cbn [expression] in He.
  subst e.
  assert (cur <> []) as Hne by (intros ->; discriminate Hcur).
  unfold handleAction at 2. cbn [expression].
  rewrite (match_trailing_pre pre cur Hpre Hcur).
  rewrite (slice_off_app pre cur Hne).
  unfold set_expression. cbn [history].
  destruct (startsWith_minus cur) eqn:Hm.
  - rewrite (startsWith_minus_true cur Hm) in Hcur.
    destruct (matches_num_minus _ Hcur) as [Hm' Hcur'].
    assert (slice_1 cur <> []) as Hne'
        by (intros E; rewrite E in Hcur'; discriminate Hcur').
    unfold handleAction. cbn [expression history].
    rewrite (match_trailing_pre pre _ Hpre Hcur').
    rewrite (slice_off_app pre _ Hne'), Hm'.
    unfold set_expression. cbn [history].
    change ("-" ++ slice_1 cur) with ("-"%char :: slice_1 cur).
    now rewrite <- (startsWith_minus_true cur Hm).
  - pose proof (matches_num_add_minus cur Hm Hcur) as Hcur'.
    unfold handleAction. cbn [expression history].
    change ("-" ++ cur) with ("-"%char :: cur).
    rewrite (match_trailing_pre pre _ Hpre Hcur').
    rewrite (slice_off_app pre ("-"%char :: cur)) by discriminate.
    reflexivity.
Qed.

Lemma sign_twice_after_operator_witness :
  handleAction "b" Sign
    (handleAction "a" Sign {| expression := "5*3.2"; history := [] |})
  = {| expression := "5*3.2"; history := [] |}.
Proof.
  apply (sign_twice_after_operator "a" "b"
           {| expression := "5*3.2"; history := [] |} "5*" "3.2");
    reflexivity.
Defined.

(** ** Typing operators *)

Lemma normalizeInput_operator o e :
  is_op_char o = true ->
  normalizeInput [o] e
  = if negb (nonempty e) then (if Ascii.eqb o "-" then "-" else e)
    else if has_op (at_last e) then slice_off e 1 ++ [o]
    else e ++ [o].
Proof.
  intros Ho. unfold normalizeInput. cbn [existsb is_operator].
  assert (is_digit o = false) as ->.
  { destruct (is_digit o) eqn:Hd; [|reflexivity].
    now rewrite (digit_not_op o Hd) in Ho. }
  cbn [orb].
  assert (str_eqb [o] "." = false) as ->.
  { rewrite str_eqb_single.
    destruct (Ascii.eqb_spec o ".") as [->|]; [discriminate Ho|easy]. }
  rewrite Ho, str_eqb_single. reflexivity.
Qed.

(** X9: on a buffer that is not empty, only the last of two operators typed
    in a row is kept: typing [o1] and then [o2] gives what typing [o2]
    alone gives.  The empty buffer is different: it refuses [+], [*] and
    [/], but takes them after a [-], which they then replace. *)
Theorem last_operator_wins :
  forall (o1 o2 : ascii) (e : str),
    is_op_char o1 = true ->
    is_op_char o2 = true ->
    (e <> [] ->
     normalizeInput [o2] (normalizeInput [o1] e) = normalizeInput [o2] e)
    /\ (Ascii.eqb o2 "-" = false ->
        normalizeInput [o2] [] = []
        /\ normalizeInput [o2] (normalizeInput "-" []) = [o2]).
Proof.
  intros o1 o2 e H1 H2. split.
  - intros Hne. destruct e as [|c t]; [contradiction|].
    rewrite (normalizeInput_operator o1 (c :: t) H1).
    rewrite (normalizeInput_operator o2 (c :: t) H2).
    cbn [nonempty negb].
    destruct (has_op (at_last (c :: t))) eqn:Hlast.
    + destruct (at_last (c :: t)) as [l|] eqn:Hl; [|discriminate].
      destruct (at_last_Some _ _ Hl) as (p & Hp). rewrite Hp.
      change 1%nat with (length [l]).
      rewrite (slice_off_app p [l]) by discriminate.
      rewrite (normalizeInput_operator o2 (p ++ [o1]) H2).
      rewrite at_last_snoc. cbn [has_op]. rewrite H1.
      change 1%nat with (length [o1]).
      rewrite (slice_off_app p [o1]) by discriminate.
      now destruct p.
    + rewrite (normalizeInput_operator o2 ((c :: t) ++ [o1]) H2).
      rewrite at_last_snoc. cbn [has_op]. rewrite H1.
      change 1%nat with (length [o1]).
      now rewrite (slice_off_app (c :: t) [o1]) by discriminate.
  - intros Hm. rewrite !(normalizeInput_operator o2 _ H2).
    cbn [nonempty negb]. rewrite Hm. split; [reflexivity|].
    change (normalizeInput "-" []) with "-". reflexivity.
Qed.

Lemma last_operator_wins_witness :
  normalizeInput "*" (normalizeInput "+" "7") = normalizeInput "*" "7"
  /\ normalizeInput "/" [] = []
  /\ normalizeInput "/" (normalizeInput "-" []) = "/".
Proof.
  split.
  - apply (proj1 (last_operator_wins "+" "*" "7" eq_refl eq_refl)).
    discriminate.
  - apply (proj2 (last_operator_wins "+" "/" "7" eq_refl eq_refl)).
    reflexivity.
Defined.

(** ** What the history holds *)

Lemma step_history_entries st ev :
  Forall (fun en => e_result en = answer_of (e_expression en)
                    /\ equals_ok {| expression := e_expression en;
                                    history := [] |} = true)
         (history st) ->
  Forall (fun en => e_result en = answer_of (e_expression en)
                    /\ equals_ok {| expression := e_expression en;
                                    history := [] |} = true)
         (history (step st ev)).
Proof.
  intros H. rewrite step_history.
  destruct (is_successful_equals st ev) eqn:Hs.
  - apply Forall_forall. intros en Hen. apply In_firstn in Hen.
    destruct Hen as [<-|Hen].
    + destruct ev as [?|[] ?| |?]; try discriminate Hs.
      cbn [is_successful_equals] in Hs. split; [reflexivity|].
      exact Hs.
    + rewrite Forall_forall in H. now apply H.
  - destruct (is_clear_history ev); [constructor|exact H].
Qed.

(** X10: every entry of the history, after any run, was made by a
    successful [equals]: its expression is not empty and does not end in an
    operator, its result is what [toResultString] gives for the value of
    that expression, and that result is not ["Error"]. *)
Theorem history_entries_are_answers :
  forall evs : list event,
    Forall (fun en =>
              e_expression en <> []
              /\ ends_in_operator (e_expression en) = false
              /\ e_result en
                 = toResultString (evaluateExpression (e_expression en))
              /\ e_result en <> "Error")
           (history (run initial evs)).
Proof.
  intros evs.
  assert (Forall (fun en => e_result en = answer_of (e_expression en)
                            /\ equals_ok {| expression := e_expression en;
                                            history := [] |} = true)
                 (history (run initial evs))) as H.
  { assert (Forall (fun en => e_result en = answer_of (e_expression en)
                              /\ equals_ok {| expression := e_expression en;
                                              history := [] |} = true)
                   (history initial)) as Hinit by constructor.
    revert Hinit. generalize initial.
    induction evs as [|ev evs IH]; intros st Hst; [exact Hst|].
    cbn [run fold_left]. apply IH. now apply step_history_entries. }
  eapply Forall_impl; [|exact H].
  intros en [Hres Hok]. unfold equals_ok in Hok. cbn [expression] in Hok.
  apply andb_true_iff in Hok as [Hok Herr].
  apply andb_true_iff in Hok as [Hne Hop].
  apply negb_true_iff in Hop, Herr. apply str_eqb_neq in Herr.
  repeat split.
  - intros E. rewrite E in Hne. discriminate.
  - exact Hop.
  - exact Hres.
  - rewrite Hres. exact Herr.
Qed.

(** ** Decimal points *)

Lemma split_ops_nonempty e : split_ops e <> [].
Proof.
  destruct e as [|c t]; [discriminate|]. cbn [split_ops].
  destruct (is_op_char c); [discriminate|].
  destruct (split_ops t); discriminate.
Qed.

(** The scan agrees with the segments of [split]. *)
Lemma dots_ok_from_split e :
  forall seen,
    dots_ok_from seen e
    = match split_ops e with
      | seg :: segs =>
          ((if seen then 1 else 0) + count_if (Ascii.eqb ".") seg <=? 1)%nat
          && forallb (fun s => (count_if (Ascii.eqb ".") s <=? 1)%nat) segs
      | [] => false
      end.
Proof.
  induction e as [|c t IH]; intros seen; [now destruct seen|].
  cbn [dots_ok_from split_ops].
  destruct (is_op_char c) eqn:Hop.
  - rewrite IH. pose proof (split_ops_nonempty t) as Hne.
    destruct (split_ops t) as [|seg segs]; [contradiction|].
    cbn [forallb count_if filter length Nat.add]. now destruct seen.
  - pose proof (split_ops_nonempty t) as Hne.
    destruct (Ascii.eqb c ".") eqn:Hdot.
    + rewrite IH. destruct (split_ops t) as [|seg segs]; [contradiction|].
      unfold count_if. cbn [filter].
      rewrite (Ascii.eqb_sym "." c), Hdot.
      cbn [length]. destruct seen; cbn [negb andb Nat.add]; reflexivity.
    + rewrite IH. destruct (split_ops t) as [|seg segs]; [contradiction|].
      unfold count_if. cbn [filter].
      now rewrite (Ascii.eqb_sym "." c), Hdot.
Qed.

Lemma dot_seen_last_segment e :
  forall seen,
    dot_seen seen e
    = match split_ops e with
      | [seg] => seen || existsb (Ascii.eqb ".") seg
      | segs => existsb (Ascii.eqb ".") (last segs [])
      end.
Proof.
  unfold dot_seen.
  induction e as [|c t IH]; intros seen; [now destruct seen|].
  cbn [fold_left split_ops]. rewrite IH.
  pose proof (split_ops_nonempty t) as Hne.
  destruct (split_ops t) as [|seg segs]; [contradiction|].
  destruct (is_op_char c).
  - destruct segs; [|reflexivity]. reflexivity.
  - destruct segs as [|seg' segs'].
    + cbn [existsb]. rewrite (Ascii.eqb_sym "." c).
      destruct (Ascii.eqb c "."), seen; reflexivity.
    + reflexivity.
Qed.

Lemma dots_ok_from_app a :
  forall seen b,
    dots_ok_from seen (a ++ b)
    = dots_ok_from seen a && dots_ok_from (dot_seen seen a) b.
Proof.
  unfold dot_seen.
  induction a as [|c t IH]; intros seen b; [reflexivity|].
  cbn [app dots_ok_from fold_left].
  destruct (is_op_char c); [apply IH|].
  destruct (Ascii.eqb c "."); [|apply IH].
  rewrite IH. now rewrite andb_assoc.
Qed.

Lemma dots_ok_firstn n e :
  dots_ok_from false e = true -> dots_ok_from false (firstn n e) = true.
Proof.
  intros H. rewrite <- (firstn_skipn n e), dots_ok_from_app in H.
  now apply andb_true_iff in H.
Qed.

Lemma normalizeInput_dots c e :
  dots_ok_from false e = true ->
  forallb (fun x => is_digit_or_dot x || is_op_char x) e = true ->
  dots_ok_from false (normalizeInput [c] e) = true
  /\ forallb (fun x => is_digit_or_dot x || is_op_char x)
             (normalizeInput [c] e) = true.
Proof.
  intros Hd Ha.
  destruct (is_op_char c) eqn:Hop.
  { rewrite (normalizeInput_operator c e Hop).
    destruct e as [|a t]; cbn [nonempty negb].
    - destruct (Ascii.eqb c "-"); now split.
    - destruct (has_op (at_last (a :: t))).
      + unfold slice_off.
        rewrite dots_ok_from_app, forallb_app.
        rewrite (dots_ok_firstn _ _ Hd), (forallb_firstn _ _ _ Ha).
        cbn [dots_ok_from forallb]. now rewrite Hop, orb_true_r.
      + rewrite dots_ok_from_app, forallb_app, Hd, Ha.
        cbn [dots_ok_from forallb]. now rewrite Hop, orb_true_r. }
  unfold normalizeInput. cbn [existsb is_operator]. rewrite Hop.
  rewrite orb_false_r.
  destruct (is_digit c) eqn:Hdig.
  { rewrite dots_ok_from_app, forallb_app, Hd, Ha.
    cbn [dots_ok_from forallb]. rewrite Hop.
    unfold is_digit_or_dot. rewrite Hdig.
    destruct (digit_or_dot_facts c) as (_ & _ & _ & _ & _).
    { unfold is_digit_or_dot. now rewrite Hdig. }
    assert (Ascii.eqb c "." = false) as ->; [|now split].
    destruct (Ascii.eqb_spec c ".") as [->|]; [discriminate Hdig|easy]. }
  rewrite str_eqb_single.
  destruct (Ascii.eqb c ".") eqn:Hdot; [|now split].
  pose proof (dot_seen_last_segment e false) as Hseen.
  assert (dot_seen false e
          = existsb (Ascii.eqb ".") (last (split_ops e) [])) as Hlast.
  { rewrite Hseen. destruct (split_ops e) as [|seg [|seg' segs]];
      reflexivity. }
  rewrite <- Hlast.
  destruct (dot_seen false e) eqn:Hs; cbn [negb]; [now split|].
  destruct (nonempty _).
  - rewrite dots_ok_from_app, forallb_app, Hd, Ha, Hs. now split.
  - rewrite dots_ok_from_app, forallb_app, Hd, Ha, Hs. now split.
Qed.

Lemma step_typing st ev :
  is_typing_event ev = true ->
  dots_ok_from false (expression st) = true
  /\ forallb (fun x => is_digit_or_dot x || is_op_char x) (expression st)
     = true ->
  dots_ok_from false (expression (step st ev)) = true
  /\ forallb (fun x => is_digit_or_dot x || is_op_char x)
             (expression (step st ev)) = true.
Proof.
  intros Hev [Hd Ha].
  destruct ev as [[|c [|c' t]]|[] uuid| |i]; try discriminate Hev;
    cbn [step handleAction set_expression expression].
  - now apply normalizeInput_dots.
  - now split.
  - unfold slice_off. split.
    + now apply dots_ok_firstn.
    + now apply forallb_firstn.
Qed.

(** X11: a buffer made by typing characters, [clear] and [delete] holds
    only digits, decimal points and operator characters, and none of its
    segments (what [split] on the operators gives) has more than one
    decimal point. *)
Theorem typed_buffer_decimal_points :
  forall evs : list event,
    forallb is_typing_event evs = true ->
    let e := expression (run initial evs) in
    forallb (fun seg => (count_if (Ascii.eqb ".") seg <=? 1)%nat)
            (split_ops e) = true
    /\ forallb (fun c => is_digit_or_dot c || is_op_char c) e = true.
Proof.
  intros evs Hevs e.
  assert (dots_ok_from false e = true
          /\ forallb (fun x => is_digit_or_dot x || is_op_char x) e = true)
    as [Hd Ha].
  { subst e.
    assert (dots_ok_from false (expression initial) = true
            /\ forallb (fun x => is_digit_or_dot x || is_op_char x)
                       (expression initial) = true) as Hinit by now split.
    revert Hevs Hinit. generalize initial.
    induction evs as [|ev evs IH]; intros st Hevs Hst; [exact Hst|].
    cbn [forallb] in Hevs. apply andb_true_iff in Hevs as [Hev Hevs].
    cbn [run fold_left]. apply IH; [assumption|].
    now apply step_typing. }
  split; [|exact Ha].
  rewrite dots_ok_from_split in Hd.
  pose proof (split_ops_nonempty e) as Hne.
  destruct (split_ops e) as [|seg segs]; [contradiction|].
  exact Hd.
Qed.

Lemma typed_buffer_decimal_points_witness :
  let evs := keys "1.5..+.x2.-" ++ [Command Delete "id"] ++ keys ".7." in
  expression (run initial evs) = "1.5+0.27"
  /\ forallb (fun seg => (count_if (Ascii.eqb ".") seg <=? 1)%nat)
             (split_ops (expression (run initial evs))) = true.
Proof.
  intros evs. split; [vm_compute; reflexivity|].
  apply (proj1 (typed_buffer_decimal_points evs eq_refl)).
Defined.

(** ** formatExpression *)

Lemma In_replaceAll x pat rep s :
  In x (replaceAll pat rep s) -> In x rep \/ (In x s /\ x <> pat).
Proof.
  unfold replaceAll. rewrite in_flat_map. intros (c & Hc & Hx).
  destruct (N.eqb_spec c pat) as [->|Hne]; [now left|].
  destruct Hx as [<-|[]]. right. now split.
Qed.

Lemma In_collapse_white x s :
  forall b, In x (collapse_white b s) -> x = 32%N \/ In x s.
Proof.
  induction s as [|c t IH]; intros b H; [contradiction|].
  cbn [collapse_white] in H.
  destruct (is_white c).
  - destruct b; [|destruct H as [<-|H]; [now left|]];
      (destruct (IH _ H); [now left|right; now right]).
  - destruct H as [<-|H]; [right; now left|].
    destruct (IH _ H); [now left|right; now right].
Qed.

Lemma In_trimStart x s : In x (trimStart s) -> In x s.
Proof.
  induction s as [|c t IH]; intros H; [contradiction|].
  cbn [trimStart] in H. destruct (is_white c); [right; now apply IH|exact H].
Qed.

Lemma In_trimEnd x s : In x (trimEnd s) -> In x s.
Proof.
  induction s as [|c t IH]; intros H; [contradiction|].
  cbn [trimEnd] in H. destruct (trimEnd t) as [|c' t'].
  - destruct (is_white c); [contradiction|].
    destruct H as [<-|[]]. now left.
  - destruct H as [<-|H]; [now left|right; now apply IH].
Qed.

Lemma collapse_white_collapsed s :
  forall b,
    collapsed (collapse_white b s) = true
    /\ (b = true -> head_white (collapse_white b s) = false).
Proof.
  induction s as [|c t IH]; intros b; [now split|].
  cbn [collapse_white]. destruct (is_white c) eqn:Hc.
  - destruct (IH true) as [H1 H2]. destruct b.
    + split; [exact H1|intros _; now apply H2].
    + split; [|discriminate]. cbn [collapsed].
      change (is_white 32) with true. cbv iota.
      now rewrite N.eqb_refl, H2, H1.
  - destruct (IH false) as [H1 _]. split.
    + cbn [collapsed]. now rewrite Hc, H1.
    + intros _. cbn [head_white]. exact Hc.
Qed.

Lemma trimStart_collapsed s :
  collapsed s = true ->
  collapsed (trimStart s) = true /\ head_white (trimStart s) = false.
Proof.
  induction s as [|c t IH]; intros H; [now split|].
  cbn [trimStart]. destruct (is_white c) eqn:Hc.
  - cbn [collapsed] in H. apply andb_true_iff in H as [_ H]. now apply IH.
  - split; [exact H|]. cbn [head_white]. exact Hc.
Qed.

Lemma trimEnd_head s :
  head_white s = false -> head_white (trimEnd s) = false.
Proof.
  destruct s as [|c t]; [reflexivity|]. cbn [head_white trimEnd].
  intros Hc. rewrite Hc. now destruct (trimEnd t).
Qed.

Lemma trimEnd_single_spaced s :
  collapsed s = true -> single_spaced (trimEnd s) = true.
Proof.
  induction s as [|c t IH]; intros H; [reflexivity|].
  cbn [collapsed] in H. apply andb_true_iff in H as [Hc Ht].
  specialize (IH Ht). cbn [trimEnd].
  destruct (trimEnd t) as [|c' t'] eqn:Hte.
  - destruct (is_white c) eqn:Hw; [reflexivity|].
    cbn [single_spaced]. now rewrite Hw.
  - cbn [single_spaced] in *. rewrite IH, andb_true_r.
    destruct (is_white c); [|reflexivity].
    apply andb_true_iff in Hc as [-> Hh]. apply negb_true_iff in Hh.
    pose proof (trimEnd_head t Hh) as Hh'. rewrite Hte in Hh'.
    cbn [head_white] in Hh'. now rewrite Hh'.
Qed.

(** X12: what [formatExpression] returns has no white space at either
    end, every white-space character in it is a single space between two
    other characters, and it has none of the characters [*], [/] and [-]:
    they are shown by the glyphs. *)
Theorem formatExpression_shape :
  forall value : ustr,
    let shown := formatExpression value in
    head_white shown = false
    /\ single_spaced shown = true
    /\ existsb (fun c => (c =? 42) || (c =? 47) || (c =? 45))%N shown = false.
Proof.
  intros value shown. subst shown. unfold formatExpression, trim.
  set (replaced := replaceAll 43%N _ _).
  destruct (collapse_white_collapsed replaced false) as [Hc _].
  destruct (trimStart_collapsed _ Hc) as [Hc' Hh].
  split; [now apply trimEnd_head|].
  split; [now apply trimEnd_single_spaced|].
  assert (forall x, In x (trimEnd (trimStart (collapse_white false replaced)))
                    -> x = 32%N \/ In x replaced) as Hin.
  { intros x H. apply In_trimEnd, In_trimStart in H.
    now apply In_collapse_white in H. }
  assert (forall x, In x replaced ->
                    In x [32; 43; glyph_minus; glyph_divide; glyph_times]%N
                    \/ (In x value /\ x <> 43 /\ x <> 45 /\ x <> 47
                        /\ x <> 42)%N) as Hrep.
  { intros x H. subst replaced. unfold spaced in H.
    apply In_replaceAll in H as [H|[H H1]];
      [left; cbn in *; tauto|].
    apply In_replaceAll in H as [H|[H H2]];
      [left; cbn in *; tauto|].
    apply In_replaceAll in H as [H|[H H3]];
      [left; cbn in *; tauto|].
    apply In_replaceAll in H as [H|[H H4]];
      [left; cbn in *; tauto|].
    right. tauto. }
  destruct (existsb _ _) eqn:Hex; [exfalso|reflexivity].
  apply existsb_exists in Hex as (x & Hx & Hop).
  assert (x = 42 \/ x = 47 \/ x = 45)%N as Hcases.
  { apply orb_true_iff in Hop as [Hop|Hop];
      [apply orb_true_iff in Hop as [Hop|Hop]|]; apply N.eqb_eq in Hop;
      tauto. }
  apply Hin in Hx as [Hx|Hx];
    [destruct Hcases as [->|[->| ->]]; discriminate Hx|].
  apply Hrep in Hx as [Hx|Hx].
  - cbn in Hx. unfold glyph_minus, glyph_divide, glyph_times in Hx.
    destruct Hcases as [->|[->| ->]];
      repeat (destruct Hx as [Hx|Hx]; [discriminate Hx|]); contradiction.
  - destruct Hcases as [->|[->| ->]]; tauto.
Qed.

Lemma filter_trimStart s :
  filter (fun c => negb (is_white c)) (trimStart s)
  = filter (fun c => negb (is_white c)) s.
Proof.
  induction s as [|c t IH]; [reflexivity|]. cbn [trimStart].
  destruct (is_white c) eqn:Hc; [|reflexivity].
  cbn [filter]. now rewrite Hc.
Qed.

Lemma filter_trimEnd s :
  filter (fun c => negb (is_white c)) (trimEnd s)
  = filter (fun c => negb (is_white c)) s.
Proof.
  induction s as [|c t IH]; [reflexivity|]. cbn [trimEnd filter].
  rewrite <- IH. destruct (trimEnd t) as [|c' t'].
  - destruct (is_white c) eqn:Hc; cbn [filter negb]; [reflexivity|].
    now rewrite Hc.
  - reflexivity.
Qed.

Lemma filter_collapse_white s :
  forall b,
    filter (fun c => negb (is_white c)) (collapse_white b s)
    = filter (fun c => negb (is_white c)) s.
Proof.
  induction s as [|c t IH]; intros b; [reflexivity|].
  cbn [collapse_white filter]. destruct (is_white c) eqn:Hc; cbn [negb].
  - destruct b; [apply IH|]. cbn [filter].
    change (is_white 32) with true. cbn [negb]. apply IH.
  - cbn [filter]. rewrite Hc. cbn [negb]. now rewrite IH.
Qed.

Lemma filter_replaceAll pat g s :
  is_white g = false ->
  is_white pat = false ->
  filter (fun c => negb (is_white c)) (replaceAll pat (spaced g) s)
  = map (fun c => if N.eqb c pat then g else c)
        (filter (fun c => negb (is_white c)) s).
Proof.
  intros Hg Hp. unfold replaceAll, spaced.
  induction s as [|c t IH]; [reflexivity|].
  cbn [flat_map]. rewrite filter_app, IH. cbn [filter].
  destruct (N.eqb_spec c pat) as [->|Hne].
  - cbn [filter]. change (is_white 32) with true. rewrite Hg, Hp.
    cbn [negb app map]. now rewrite N.eqb_refl.
  - cbn [filter]. destruct (is_white c); cbn [negb app map];
      [reflexivity|].
    now destruct (N.eqb_spec c pat).
Qed.

Lemma unglyph_glyph c :
  is_plain c = true ->
  unglyph
    ((fun c => if N.eqb c 43 then 43 else c)
       ((fun c => if N.eqb c 45 then glyph_minus else c)
          ((fun c => if N.eqb c 47 then glyph_divide else c)
             ((fun c => if N.eqb c 42 then glyph_times else c) c))))%N
  = c.
Proof.
  unfold is_plain. intros H.
  apply andb_true_iff in H as [H H3]. apply andb_true_iff in H as [H H2].
  apply andb_true_iff in H as [_ H1].
  apply negb_true_iff in H1, H2, H3. cbv beta.
  destruct (N.eqb_spec c 42) as [->|H42]; [reflexivity|].
  destruct (N.eqb_spec c 47) as [->|H47]; [reflexivity|].
  destruct (N.eqb_spec c 45) as [->|H45]; [reflexivity|].
  destruct (N.eqb_spec c 43) as [->|H43]; [reflexivity|].
  unfold unglyph. now rewrite H1, H2, H3.
Qed.

(** X13: the expression line loses nothing: for a value without white
    space and without the three glyphs, dropping the spaces of
    [formatExpression value] and turning the glyphs back into [*], [/]
    and [-] gives [value] again. *)
Theorem formatExpression_round_trip :
  forall value : ustr,
    forallb is_plain value = true ->
    unformat (formatExpression value) = value.
Proof.
  intros value Hplain. unfold unformat, formatExpression, trim.
  rewrite filter_trimEnd, filter_trimStart, filter_collapse_white.
  rewrite !filter_replaceAll by reflexivity.
  assert (filter (fun c => negb (is_white c)) value = value) as ->.
  { induction value as [|c t IH]; [reflexivity|].
    cbn [forallb] in Hplain. apply andb_true_iff in Hplain as [Hc Ht].
    cbn [filter]. unfold is_plain in Hc.
    apply andb_true_iff in Hc as [Hc _]. apply andb_true_iff in Hc as [Hc _].
    apply andb_true_iff in Hc as [-> _]. now rewrite (IH Ht). }
  rewrite !map_map.
  induction value as [|c t IH]; [reflexivity|].
  cbn [forallb] in Hplain. apply andb_true_iff in Hplain as [Hc Ht].
  cbn [map]. rewrite (IH Ht). f_equal. now apply unglyph_glyph.
Qed.

Lemma formatExpression_round_trip_witness :
  unformat (formatExpression (text_of "12.5*-3/4-0.5+7"))
  = text_of "12.5*-3/4-0.5+7".
Proof.
  apply (formatExpression_round_trip (text_of "12.5*-3/4-0.5+7")).
  reflexivity.
Defined.

(** ** The page *)

Lemma handleAction_page_vars uuid a p :
  vars (handleAction_page uuid a p) = handleAction uuid a (vars p).
Proof.
  unfold handleAction_page, handleAction.
  destruct a; try reflexivity.
  - destruct (_ || _); [reflexivity|].
    now destruct (match_trailing _).
  - now destruct (match_trailing _).
  - destruct (_ || _); [reflexivity|]. cbn [refresh vars].
    now destruct (negb (str_eqb _ "Error")).
Qed.

Lemma page_step_vars p ev : vars (page_step p ev) = step (vars p) ev.
Proof.
  destruct ev as [newChar|a uuid| |i]; cbn [page_step step].
  - reflexivity.
  - apply handleAction_page_vars.
  - reflexivity.
  - now destruct (nth_error _ i).
Qed.

Lemma refresh_lines preview st :
  expressionText (screen (refresh preview st))
  = expression_line (expression st)
  /\ result_line_ok (expression st) (resultText (screen (refresh preview st))).
Proof.
  unfold refresh, updateDisplay, expression_line, result_line_ok.
  cbn [screen vars].
  destruct (nonempty (expression st)); cbn [negb]; [|now split].
  destruct (has_op (at_last (expression st))),
    (ends_in_dot (expression st)), preview;
    cbn [negb orb expressionText resultText]; split; auto.
Qed.

Lemma page_step_lines p ev :
  expressionText (screen p) = expression_line (expression (vars p))
  /\ result_line_ok (expression (vars p)) (resultText (screen p)) ->
  expressionText (screen (page_step p ev))
  = expression_line (expression (vars (page_step p ev)))
  /\ result_line_ok (expression (vars (page_step p ev)))
                    (resultText (screen (page_step p ev))).
Proof.
  intros H.
  destruct ev as [newChar|a uuid| |i]; cbn [page_step].
  - apply refresh_lines.
  - unfold handleAction_page. destruct a; try exact H;
      try apply refresh_lines.
    + destruct (_ || _); [exact H|].
      destruct (match_trailing _); [apply refresh_lines|exact H].
    + destruct (match_trailing _); apply refresh_lines.
    + destruct (_ || _); [exact H|apply refresh_lines].
  - exact H.
  - destruct (nth_error _ i); [apply refresh_lines|exact H].
Qed.

Lemma page_run_lines evs :
  forall p,
    expressionText (screen p) = expression_line (expression (vars p))
    /\ result_line_ok (expression (vars p)) (resultText (screen p)) ->
    expressionText (screen (page_run p evs))
    = expression_line (expression (vars (page_run p evs)))
    /\ result_line_ok (expression (vars (page_run p evs)))
                      (resultText (screen (page_run p evs))).
Proof.
  induction evs as [|ev evs IH]; intros p H; [exact H|].
  cbn [page_run fold_left]. apply IH. now apply page_step_lines.
Qed.

(** X14: writing the page does not touch the variables, and the
    expression line is always up to date: after any run of the handlers,
    the two variables are those of the run without the display, and the
    expression line shows the formatted buffer, or [0] for the empty
    buffer -- also after the branches that return without calling
    [updateDisplay]. *)
Theorem page_follows_buffer :
  forall evs : list event,
    vars (page_run initial_page evs) = run initial evs
    /\ expressionText (screen (page_run initial_page evs))
       = if nonempty (expression (run initial evs))
         then formatExpression (text_of (expression (run initial evs)))
         else text_of "0".
Proof.
  intros evs.
  assert (vars (page_run initial_page evs) = run initial evs) as Hvars.
  { change (run initial evs) with (run (vars initial_page) evs).
    generalize initial_page.
    induction evs as [|ev evs IH]; intros p; [reflexivity|].
    cbn [page_run run fold_left]. rewrite <- page_step_vars. apply IH. }
  split; [exact Hvars|].
  rewrite <- Hvars.
  apply (page_run_lines evs initial_page). apply refresh_lines.
Qed.

(** X15: the result line after any run shows [0] when the buffer is
    empty, the ellipsis when the buffer ends in an operator or a decimal
    point, and otherwise the ellipsis or the formatted value of the
    buffer.  Right after an [equals] command it shows [0] or the ellipsis:
    the answer goes to the expression line, and an error empties both
    lines to [0]; ["Error"] is only ever shown as a preview. *)
Theorem result_line_after_run :
  forall evs : list event,
    let p := page_run initial_page evs in
    result_line_ok (expression (vars p)) (resultText (screen p))
    /\ forall uuid,
         resultText (screen (handleAction_page uuid Equals p)) = text_of "0"
         \/ resultText (screen (handleAction_page uuid Equals p)) = ellipsis.
Proof.
  intros evs p.
  assert (result_line_ok (expression (vars p)) (resultText (screen p)))
    as Hok by (apply (page_run_lines evs initial_page), refresh_lines).
  split; [exact Hok|].
  intros uuid. unfold handleAction_page.
  destruct (nonempty (expression (vars p))) eqn:Hne; cbn [negb orb].
  - destruct (ends_in_operator (expression (vars p))) eqn:Hop.
    + right. unfold result_line_ok in Hok. rewrite Hne in Hok.
      cbn [negb] in Hok. unfold ends_in_operator in Hop.
      now rewrite Hop in Hok.
    + unfold refresh. cbn [screen].
      generalize (expression
                    (if negb (str_eqb
                                (toResultString
                                   (evaluateExpression (expression (vars p))))
                                "Error")
                     then {| expression :=
                               toResultString
                                 (evaluateExpression (expression (vars p)));
                             history :=
                               firstn 20
                                 ({| e_expression := expression (vars p);
                                     e_result :=
                                       toResultString
                                         (evaluateExpression
                                            (expression (vars p)));
                                     e_id := uuid |} :: history (vars p)) |}
                     else set_expression (vars p) [])).
      intros e. unfold updateDisplay.
      destruct (nonempty e); cbn [negb orb resultText]; [now right|now left].
  - left. unfold result_line_ok in Hok. now rewrite Hne in Hok.
Qed.

(** ** Characters inside a number that tokenize skips *)

Lemma scan_step_no_minus prev prev' c next next' st :
  Ascii.eqb c "-" = false ->
  scan_step prev c next st = scan_step prev' c next' st.
Proof. intros Hc. unfold scan_step. now rewrite Hc. Qed.

Lemma scan_filter rest :
  existsb (fun c => Ascii.eqb c "-") rest = false ->
  forall prev prev' st,
    scan prev rest st
    = scan prev' (filter (fun c => is_digit_or_dot c || is_op_char c) rest) st.
Proof.
  induction rest as [|c t IH]; intros Hm prev prev' st; [reflexivity|].
  cbn [existsb] in Hm. apply orb_false_iff in Hm as [Hc Ht].
  cbn [scan filter].
  destruct (is_digit_or_dot c || is_op_char c) eqn:Hk.
  - cbn [scan].
    rewrite (scan_step_no_minus prev prev' c (hd_error t)
               (hd_error (filter (fun c => is_digit_or_dot c || is_op_char c)
                                 t)) st Hc).
    now apply IH.
  - rewrite (scan_step_skip _ _ _ _ Hk). now apply IH.
Qed.

(** X16: in an input without a minus character, the characters that are
    not digits, decimal points or operators are dropped without closing
    the number being read: [tokenize] gives what it gives on the input with
    these characters removed, so the digits on both sides of them join
    into one number. *)
Theorem tokenize_drops_other_characters :
  forall raw : str,
    existsb (fun c => Ascii.eqb c "-") raw = false ->
    tokenize raw
    = tokenize (filter (fun c => is_digit_or_dot c || is_op_char c) raw).
Proof.
  intros raw Hm. rewrite !tokenize_scan.
  now rewrite (scan_filter raw Hm None None ([], [])).
Qed.

Lemma tokenize_drops_other_characters_witness :
  tokenize "1 0F5+2e3" = tokenize "105+23".
Proof.
  apply (tokenize_drops_other_characters "1 0F5+2e3"). reflexivity.
Defined.
